(** * gen-c-headers: Rust [extern "C"] signatures to C prototypes

    A shallow embedding of [rust/gen-c-headers.py].  The script is a
    Python 2 program working on byte strings: a string is a list of
    8-bit characters, [\s] and [str.strip] know the six ASCII white
    space characters.  The two regular expressions of the script are
    kept as syntax trees and run by a small backtracking matcher that
    follows the [re] module (greedy repetition, optional groups,
    [^] and [$] under the flags given at the call).  The functions
    around the loop over the matches, [make_output_filename], the
    template of the header and [gen_headers] on a file, reach the file
    system and the standard output through the calls of an abstract
    world. *)

From Stdlib Require Import Ascii String List Bool Arith Lia Permutation.
Import ListNotations.

Local Open Scope char_scope.
Local Open Scope list_scope.

(** ** Byte strings *)

Definition str := list ascii.

Notation "$ s" := (list_ascii_of_string s) (at level 1, format "$ s").

Definition str_eqb (a b : str) : bool :=
  if list_eq_dec ascii_dec a b then true else false.

Definition mem (x : str) (l : list str) : bool := existsb (str_eqb x) l.

(** [c.isspace()] for a byte, which is also what [\s] matches when
    neither [re.LOCALE] nor [re.UNICODE] is given. *)
Definition isspace (c : ascii) : bool :=
  match c with
  | " " | "009" | "010" | "011" | "012" | "013" => true
  | _ => false
  end.

Fixpoint drop_while (p : ascii -> bool) (s : str) : str :=
  match s with
  | c :: s' => if p c then drop_while p s' else s
  | [] => []
  end.

Definition lstrip (s : str) : str := drop_while isspace s.
Definition rstrip (s : str) : str := rev (drop_while isspace (rev s)).

(** [s.strip()] *)
Definition strip (s : str) : str := rstrip (lstrip s).

(** [s.split(sep)] for a one-character separator: never empty, one
    more piece than there are separators. *)
Fixpoint split (sep : ascii) (s : str) : list str :=
  match s with
  | [] => [[]]
  | c :: s' =>
      if Ascii.eqb c sep then [] :: split sep s'
      else match split sep s' with
           | p :: ps => (c :: p) :: ps
           | [] => [[c]]
           end
  end.

(** [s.split(sep, 1)]: cut at the first separator only. *)
Fixpoint split1 (sep : ascii) (s : str) : list str :=
  match s with
  | [] => [[]]
  | c :: s' =>
      if Ascii.eqb c sep then [[]; s']
      else match split1 sep s' with
           | p :: ps => (c :: p) :: ps
           | [] => [[c]]
           end
  end.

(** [sep.join(l)] *)
Fixpoint join (sep : str) (l : list str) : str :=
  match l with
  | [] => []
  | [x] => x
  | x :: l' => x ++ sep ++ join sep l'
  end.

(** ** Exceptions

    [convert_type] raises [Exception] with a message; unpacking the
    split argument in [gen_headers] raises [ValueError]; filling the
    unicode template of the output line with a byte string that is
    not ASCII raises [UnicodeDecodeError]. *)

Inductive error : Type :=
| Exception (msg : str)
| ValueError
| UnicodeDecodeError.

(** The three exceptions of [convert_type], by their messages. *)
Definition UnknownModifier (modifier rs_type : str) : error :=
  Exception ($"Unknown modifier '" ++ modifier ++ $"' in '" ++ rs_type ++ $"'.").

Definition UnknownType (rtype : str) : error :=
  Exception ($"Unknown type: " ++ rtype).

Definition UnrecognizedTypeExpression (rs_type : str) : error :=
  Exception ($"Failed to parse Rust type: " ++ rs_type).

Inductive result (A : Type) : Type :=
| Return (a : A)
| Raise (e : error).
Arguments Return {A} a.
Arguments Raise {A} e.

Definition bind {A B : Type} (r : result A) (f : A -> result B) : result B :=
  match r with
  | Return a => f a
  | Raise e => Raise e
  end.

Notation "x <- r ;; k" := (bind r (fun x => k))
  (at level 61, r at next level, right associativity).

(** Run [f] over a list from left to right, stopping at the first
    exception. *)
Fixpoint for_each {A B : Type} (f : A -> result B) (l : list A) : result (list B) :=
  match l with
  | [] => Return []
  | a :: l' => b <- f a ;; bs <- for_each f l' ;; Return (b :: bs)
  end.

(** ** Regular expressions *)

Module Re.

(** Members of a bracketed set. *)
Inductive item : Type :=
| Chr (c : ascii)            (* a literal character *)
| Range (lo hi : ascii)      (* lo-hi *)
| Space.                     (* \s *)

(** One-character patterns. *)
Inductive cset : Type :=
| Set_ (items : list item)   (* [...] *)
| NotSet (items : list item) (* [^...] *)
| Dot.                       (* . *)

Inductive regex : Type :=
| Bol                        (* ^ *)
| Eol                        (* $ *)
| Lit (s : str)              (* literal text *)
| One (cs : cset)            (* one character *)
| Star (cs : cset)           (* cs* , greedy *)
| Plus (cs : cset)           (* cs+ , greedy *)
| Opt (r : regex)            (* r? , greedy *)
| Group (n : nat) (r : regex)  (* the n-th capturing group *)
| Seq (r1 r2 : regex).

Record flags : Type := { MULTILINE : bool; DOTALL : bool }.

Definition no_flags : flags := {| MULTILINE := false; DOTALL := false |}.

Definition item_has (i : item) (c : ascii) : bool :=
  match i with
  | Chr d => Ascii.eqb c d
  | Range lo hi =>
      Nat.leb (nat_of_ascii lo) (nat_of_ascii c) && Nat.leb (nat_of_ascii c) (nat_of_ascii hi)
  | Space => isspace c
  end.

Definition cset_has (fl : flags) (cs : cset) (c : ascii) : bool :=
  match cs with
  | Set_ items => existsb (fun i => item_has i c) items
  | NotSet items => negb (existsb (fun i => item_has i c) items)
  | Dot => DOTALL fl || negb (Ascii.eqb c "010")
  end.

(** The matcher's position: how many characters the match has taken,
    the character just before the position ([None] at the start of
    the text), the text ahead, and the groups closed so far. *)
Record state : Type := {
  taken : nat;
  before : option ascii;
  ahead : str;
  groups : list (nat * str)
}.

Definition at_bol (fl : flags) (st : state) : bool :=
  match before st with
  | None => true
  | Some c => MULTILINE fl && Ascii.eqb c "010"
  end.

Definition at_eol (fl : flags) (st : state) : bool :=
  match ahead st with
  | [] => true
  | [c] => Ascii.eqb c "010"
  | c :: _ => MULTILINE fl && Ascii.eqb c "010"
  end.

(** Take the literal [lit] from the text, if it is there. *)
Fixpoint eat (lit : str) (n : nat) (b : option ascii) (s : str)
  : option (nat * option ascii * str) :=
  match lit with
  | [] => Some (n, b, s)
  | l :: lit' =>
      match s with
      | c :: s' => if Ascii.eqb c l then eat lit' (S n) (Some c) s' else None
      | [] => None
      end
  end.

(** Greedy repetition of a one-character pattern: take one more
    character when possible, and fall back to stopping here when the
    rest of the pattern, [k], fails after the longer run. *)
Fixpoint many (p : ascii -> bool) (k : state -> option state)
  (n : nat) (b : option ascii) (g : list (nat * str)) (s : str) : option state :=
  let here := {| taken := n; before := b; ahead := s; groups := g |} in
  match s with
  | c :: s' =>
      if p c then
        match many p k (S n) (Some c) g s' with
        | Some r => Some r
        | None => k here
        end
      else k here
  | [] => k here
  end.

(** [run fl r k st]: match [r] at [st], then the rest of the pattern
    [k]; alternatives are tried in the order of the [re] module. *)
Fixpoint run (fl : flags) (r : regex) (k : state -> option state) (st : state)
  : option state :=
  match r with
  | Bol => if at_bol fl st then k st else None
  | Eol => if at_eol fl st then k st else None
  | Lit s =>
      match eat s (taken st) (before st) (ahead st) with
      | Some (n, b, s') =>
          k {| taken := n; before := b; ahead := s'; groups := groups st |}
      | None => None
      end
  | One cs =>
      match ahead st with
      | c :: s' =>
          if cset_has fl cs c then
            k {| taken := S (taken st); before := Some c; ahead := s';
                 groups := groups st |}
          else None
      | [] => None
      end
  | Star cs =>
      many (cset_has fl cs) k (taken st) (before st) (groups st) (ahead st)
  | Plus cs =>
      match ahead st with
      | c :: s' =>
          if cset_has fl cs c then
            many (cset_has fl cs) k (S (taken st)) (Some c) (groups st) s'
          else None
      | [] => None
      end
  | Opt r' =>
      match run fl r' k st with
      | Some res => Some res
      | None => k st
      end
  | Group i r' =>
      run fl r'
        (fun st' =>
           k {| taken := taken st'; before := before st'; ahead := ahead st';
                groups := (i, firstn (taken st' - taken st) (ahead st))
                            :: groups st' |})
        st
  | Seq r1 r2 => run fl r1 (run fl r2 k) st
  end.

(** A match object: its length and its groups. *)
Record mtch : Type := { span : nat; captured : list (nat * str) }.

(** Try the pattern at one position of the text. *)
Definition exec (fl : flags) (r : regex) (b : option ascii) (s : str) : option mtch :=
  match run fl r Some {| taken := 0; before := b; ahead := s; groups := [] |} with
  | Some st => Some {| span := taken st; captured := groups st |}
  | None => None
  end.

(** [m.group(i)]; a group that took no part in the match reads as the
    empty string, as in the tuples of [re.findall]. *)
Fixpoint group_of (g : list (nat * str)) (i : nat) : str :=
  match g with
  | [] => []
  | (j, s) :: g' => if Nat.eqb i j then s else group_of g' i
  end.

Definition group (m : mtch) (i : nat) : str := group_of (captured m) i.

(** [re.match(r, s, flags)] *)
Definition match_ (fl : flags) (r : regex) (s : str) : option mtch :=
  exec fl r None s.

(** [re.finditer]: the matches from left to right, each with the
    offset it starts at; a match starts where the previous one ended
    or later.  [skip] counts the characters of the last match that
    are still to be passed over. *)
Fixpoint scan (fl : flags) (r : regex) (pos skip : nat) (b : option ascii) (s : str)
  : list (nat * mtch) :=
  match skip with
  | S k =>
      match s with
      | c :: s' => scan fl r (S pos) k (Some c) s'
      | [] => []
      end
  | O =>
      match exec fl r b s with
      | Some m =>
          (pos, m) ::
          match s with
          | c :: s' => scan fl r (S pos) (pred (span m)) (Some c) s'
          | [] => []
          end
      | None =>
          match s with
          | c :: s' => scan fl r (S pos) 0 (Some c) s'
          | [] => []
          end
      end
  end.

Definition finditer (fl : flags) (r : regex) (s : str) : list (nat * mtch) :=
  scan fl r 0 0 None s.

(** [re.findall]: the matches alone. *)
Definition findall (fl : flags) (r : regex) (s : str) : list mtch :=
  map snd (finditer fl r s).

End Re.

Import Re.

Notation "r1 >> r2" := (Seq r1 r2) (at level 62, right associativity).

(** ** The type table *)

(** Map of Rust types to C types; a dictionary, read by key only. *)
Definition type_map : list (str * str) := [
  ($"bool", $"bool");
  ($"i8", $"int8_t");
  ($"i16", $"int16_t");
  ($"i32", $"int32_t");
  ($"i64", $"int64_t");

  ($"u8", $"uint8_t");
  ($"u16", $"uint16_t");
  ($"u32", $"uint32_t");
  ($"u64", $"uint64_t");

  ($"libc::c_void", $"void");

  ($"libc::c_char", $"char");
  ($"libc::c_int", $"int");
  ($"c_int", $"int");
  ($"libc::int8_t", $"int8_t");

  ($"libc::uint8_t", $"uint8_t");
  ($"libc::uint16_t", $"uint16_t");
  ($"libc::uint32_t", $"uint32_t");
  ($"libc::uint64_t", $"uint64_t");

  ($"SuricataContext", $"SuricataContext");
  ($"SuricataFileContext", $"SuricataFileContext");
  ($"FileContainer", $"FileContainer");
  ($"core::Flow", $"Flow");
  ($"Flow", $"Flow");
  ($"DNSState", $"RSDNSState");
  ($"DNSTransaction", $"RSDNSTransaction");
  ($"NFSState", $"NFSState");
  ($"NFSTransaction", $"NFSTransaction");
  ($"NTPState", $"NTPState");
  ($"NTPTransaction", $"NTPTransaction");
  ($"TFTPTransaction", $"TFTPTransaction");
  ($"TFTPState", $"TFTPState");
  ($"JsonT", $"json_t");
  ($"DetectEngineState", $"DetectEngineState");
  ($"core::DetectEngineState", $"DetectEngineState");
  ($"core::AppLayerDecoderEvents", $"AppLayerDecoderEvents");
  ($"AppLayerDecoderEvents", $"AppLayerDecoderEvents");
  ($"core::AppLayerEventType", $"AppLayerEventType");
  ($"AppLayerEventType", $"AppLayerEventType");
  ($"CLuaState", $"lua_State");
  ($"Store", $"Store");
  ($"AppProto", $"AppProto")
].

(** [d[k]] when [k in d], for a dictionary held as the list of its
    items; the keys of a dictionary are distinct. *)
Fixpoint get (d : list (str * str)) (k : str) : option str :=
  match d with
  | [] => None
  | (k', v) :: d' => if str_eqb k k' then Some v else get d' k
  end.

(** ** convert_type *)

(** The pattern [^[^\s]+$]: one run of characters that are not white
    space. *)
Definition re_token : regex :=
  Bol >> Plus (NotSet [Space]) >> Eol.

(** The pattern [^( .* )( \s [^\s]+ )$], written here with blanks
    between its parts: group 1 is anything on one line, group 2 a white
    space character and a run of characters that are not white space. *)
Definition re_modified : regex :=
  Bol >> Group 1 (Star Dot) >> Group 2 (One (Set_ [Space]) >> Plus (NotSet [Space])) >> Eol.

(** The spellings of the three [mod in [...]] tests. *)
Definition mut_spellings : list str :=
  [$"*mut"; $"* mut"; $"&mut"; $"&'static mut"].
Definition const_spellings : list str :=
  [$"*const"; $"* const"].
Definition mut_const_spellings : list str :=
  [$"*mut *const"; $"*mut*const"].

Section Translator.

(** The dictionary as the running process holds it. *)
Variable tm : list (str * str).

(** The second half of [convert_type], reached when the first test
    did not return. *)
Definition convert_modified (rs_type : str) : result str :=
  match match_ no_flags re_modified rs_type with
  | Some m =>
      let modifier := strip (group m 1) in
      let rtype := strip (group m 2) in
      match get tm rtype with
      | Some c =>
          if mem modifier mut_spellings then Return (c ++ $" *")
          else if mem modifier const_spellings then Return ($"const " ++ c ++ $" *")
          else if mem modifier mut_const_spellings then Return (c ++ $" **")
          else Raise (UnknownModifier modifier rs_type)
      | None => Raise (UnknownType rtype)
      end
  | None => Raise (UnrecognizedTypeExpression rs_type)
  end.

Definition convert_type (rs_type : str) : result str :=
  match match_ no_flags re_token rs_type with
  | Some _ =>
      match get tm rs_type with
      | Some c => Return c
      | None => convert_modified rs_type
      end
  | None => convert_modified rs_type
  end.

End Translator.

(** ** gen_headers *)

Definition dquote : ascii := "034".

(** The text [extern "C" fn ] of the pattern. *)
Definition extern_c_fn : str := $"extern " ++ [dquote] ++ $"C" ++ [dquote] ++ $" fn ".

(** The pattern of [re.findall], groups numbered from 1:
    [^pub (unsafe )?extern "C" fn ([A_Za-z0-9_]+)\(([^{]+)?\)(\s+-> ([^{]+))?]
    Its three parts with a repetition are named: the name
    [([A_Za-z0-9_]+)], the argument text [([^{]+)?] and the return
    type [(\s+-> ([^{]+))?]. *)
Definition name_set : cset :=
  Set_ [Chr "A"; Chr "_"; Chr "Z"; Range "a" "z"; Range "0" "9"; Chr "_"].

Definition re_name : regex := Group 2 (Plus name_set).

Definition re_args : regex :=
  Opt (Group 3 (Plus (NotSet [Chr "{"]))).

Definition re_returns : regex :=
  Opt (Group 4 (Plus (Set_ [Space]) >> Lit $"-> " >> Group 5 (Plus (NotSet [Chr "{"])))).

Definition re_fn : regex :=
  Bol >> Lit $"pub " >> Opt (Group 1 (Lit $"unsafe ")) >> Lit extern_c_fn >>
  re_name >> Lit $"(" >> re_args >> Lit $")" >> re_returns.

(** [re.M | re.DOTALL] *)
Definition fn_flags : flags := {| MULTILINE := true; DOTALL := true |}.

(** The elements [fn[1]], [fn[2]] and [fn[4]] of a tuple of
    [re.findall] are the groups 2, 3 and 5. *)
Definition fn_name (fn : mtch) : str := group fn 2.
Definition fn_args (fn : mtch) : str := group fn 3.
Definition fn_ret (fn : mtch) : str := group fn 5.

(** [arg_name, rs_type = arg.split(COLON, 1)], both stripped. *)
Definition parse_arg (arg : str) : result (str * str) :=
  match split1 ":" arg with
  | [arg_name; rs_type] => Return (strip arg_name, strip rs_type)
  | _ => Raise ValueError
  end.

(** The pieces of the argument text the loop does not skip. *)
Definition pieces (args : str) : list str :=
  filter (fun arg => negb (str_eqb arg [])) (split "," args).

Definition is_ascii (c : ascii) : bool := Nat.ltb (nat_of_ascii c) 128.

(** The unicode template [%s %s(%s);] and a line feed, filled with
    [(returns, fnName, args)]: the byte strings are decoded as ASCII. *)
Definition format_line (returns fnName args : str) : result str :=
  if forallb is_ascii (returns ++ fnName ++ args)
  then Return (returns ++ $" " ++ fnName ++ $"(" ++ args ++ $");" ++ ["010"])
  else Raise UnicodeDecodeError.

Section Generator.

Variable tm : list (str * str).

(** What the loop appends to [args] for one parameter. *)
Definition render_param (p : str * str) : result str :=
  let (arg_name, rs_type) := p in
  c_type <- convert_type tm rs_type ;;
  if negb (str_eqb arg_name $"_")
  then Return (c_type ++ $" " ++ arg_name)
  else Return c_type.

(** The body of the inner loop, for a piece that is not skipped. *)
Definition render_arg (arg : str) : result str :=
  p <- parse_arg arg ;; render_param p.

Definition render_return (retType : str) : result str :=
  if str_eqb retType [] then Return $"void" else convert_type tm retType.

(** The body of the outer loop: the line written for one match. *)
Definition render_fn (fn : mtch) : result str :=
  args <- for_each render_arg (pieces (fn_args fn)) ;;
  let args := match args with [] => [$"void"] | _ => args end in
  returns <- render_return (strip (fn_ret fn)) ;;
  format_line returns (fn_name fn) (join $", " args).

(** [gen_headers] from the text read from the file to
    [writer.getvalue()]. *)
Definition gen_headers (buf : str) : result str :=
  lines <- for_each render_fn (findall fn_flags re_fn buf) ;;
  Return (concat lines).

End Generator.

(** ** Function descriptors

    The loop body reads a match before it renders it: the name, the
    pieces of the argument text cut at their first colon, and the
    stripped return type.  [describe] is that reading alone. *)

Record FunctionDescriptor : Type := {
  name : str;
  parameters : list (str * str);
  return_type : option str
}.

Definition describe (fn : mtch) : result FunctionDescriptor :=
  params <- for_each parse_arg (pieces (fn_args fn)) ;;
  let retType := strip (fn_ret fn) in
  Return {| name := fn_name fn;
            parameters := params;
            return_type := if str_eqb retType [] then None else Some retType |}.

Definition extract (buf : str) : result (list FunctionDescriptor) :=
  for_each describe (findall fn_flags re_fn buf).

(** The line written for a descriptor. *)
Definition render_descriptor (tm : list (str * str)) (d : FunctionDescriptor)
  : result str :=
  args <- for_each (render_param tm) (parameters d) ;;
  let args := match args with [] => [$"void"] | _ => args end in
  returns <- match return_type d with
             | None => Return $"void"
             | Some t => convert_type tm t
             end ;;
  format_line returns (name d) (join $", " args).

(** The character before offset [p] of [s], and the text from [p] on:
    what the matcher sees when it is tried at [p]. *)
Definition before_at (s : str) (p : nat) : option ascii :=
  match p with
  | O => None
  | S p' => nth_error s p'
  end.

Definition exec_at (fl : flags) (r : regex) (s : str) (p : nat) : option mtch :=
  exec fl r (before_at s p) (skipn p s).

(** A declaration head: [pub], [unsafe] or not, [extern "C" fn], the
    name and the opening parenthesis. *)
Definition decl_head (is_unsafe : bool) (fnName : str) : str :=
  $"pub " ++ (if is_unsafe then $"unsafe " else []) ++ extern_c_fn ++ fnName ++ $"(".

(** Text that may follow the closing parenthesis of a declaration
    without a return type: white space, then the body or the end. *)
Definition opens_body (tail : str) : Prop :=
  match drop_while isspace tail with
  | [] => True
  | c :: _ => c = "{"
  end.

Definition nonspace (c : ascii) : bool := negb (isspace c).

(** A bare token: not empty, no white space inside. *)
Definition token (s : str) : Prop := s <> [] /\ forallb nonspace s = true.

(** The characters the name pattern takes. *)
Definition name_char (c : ascii) : bool := cset_has fn_flags name_set c.

Definition upper (c : ascii) : bool :=
  Nat.leb (nat_of_ascii "A") (nat_of_ascii c) && Nat.leb (nat_of_ascii c) (nat_of_ascii "Z").
Definition lower (c : ascii) : bool :=
  Nat.leb (nat_of_ascii "a") (nat_of_ascii c) && Nat.leb (nat_of_ascii c) (nat_of_ascii "z").
Definition digit (c : ascii) : bool :=
  Nat.leb (nat_of_ascii "0") (nat_of_ascii c) && Nat.leb (nat_of_ascii c) (nat_of_ascii "9").

(** Text in which no line starts with [p]: no declaration starts in
    it, whatever follows.  [bol] tells whether the text starts a line. *)
Fixpoint quiet (bol : bool) (s : str) : bool :=
  match s with
  | [] => true
  | c :: s' => negb (bol && Ascii.eqb c "p") && quiet (Ascii.eqb c "010") s'
  end.

(** Text after which a line starts: nothing, or text that ends with
    a line feed. *)
Definition ends_line (pre : str) : Prop :=
  pre = [] \/ exists l, pre = l ++ ["010"].

(** The declarations of a text: the offsets at which the pattern of
    [gen_headers] matches, with the match found there. *)
Definition declared (buf : str) (p : nat) (fn : mtch) : Prop :=
  p <= length buf /\ exec_at fn_flags re_fn buf p = Some fn.


(** The character before the position once [pre] has been taken. *)
Definition before_after (b : option ascii) (pre : str) : option ascii :=
  fold_left (fun _ c => Some c) pre b.

(** ** Paths and file names

    The functions of [str] and [os.path] that the rest of the script
    calls, for POSIX paths. *)

(** [s.startswith(p)] *)
Fixpoint starts_with (p s : str) : bool :=
  match p with
  | [] => true
  | a :: p' =>
      match s with
      | c :: s' => Ascii.eqb c a && starts_with p' s'
      | [] => false
      end
  end.

(** [s.endswith(p)] *)
Definition ends_with (p s : str) : bool := starts_with (rev p) (rev s).

(** [s.replace(old, new)] for a non-empty [old]: the occurrences are
    taken from left to right and do not overlap.  [skip] counts the
    characters of the last occurrence that are still to be passed. *)
Fixpoint replace_from (old new : str) (skip : nat) (s : str) : str :=
  match s with
  | [] => []
  | c :: s' =>
      match skip with
      | S k => replace_from old new k s'
      | O =>
          if starts_with old s
          then new ++ replace_from old new (pred (length old)) s'
          else c :: replace_from old new 0 s'
      end
  end.

Definition replace (old new s : str) : str := replace_from old new 0 s.

(** [old in s] *)
Fixpoint occurs (old s : str) : bool :=
  starts_with old s ||
  match s with
  | [] => false
  | _ :: s' => occurs old s'
  end.

(** [s.rfind(c)] for a character: the last offset of [c], [None]
    for -1. *)
Fixpoint rfind (c : ascii) (s : str) : option nat :=
  match s with
  | [] => None
  | d :: s' =>
      match rfind c s' with
      | Some i => Some (S i)
      | None => if Ascii.eqb d c then Some 0 else None
      end
  end.

(** [c.upper()] and [s.upper()] in the C locale. *)
Definition toupper (c : ascii) : ascii :=
  if lower c then ascii_of_nat (nat_of_ascii c - 32) else c.

Definition str_upper (s : str) : str := map toupper s.

(** [os.path.basename(p)] *)
Definition basename (p : str) : str :=
  match rfind "/" p with
  | Some i => skipn (S i) p
  | None => p
  end.

(** [os.path.dirname(p)]: the head up to the last slash, without its
    trailing slashes unless it is made of slashes only. *)
Definition dirname (p : str) : str :=
  let head := match rfind "/" p with
              | Some i => firstn (S i) p
              | None => []
              end in
  if negb (str_eqb head []) && negb (forallb (Ascii.eqb "/") head)
  then rev (drop_while (Ascii.eqb "/") (rev head))
  else head.

(** [os.path.splitext(p)]: cut at the last dot, when it comes after
    the last slash and some character between the two is not a dot. *)
Definition splitext (p : str) : str * str :=
  match rfind "." p with
  | None => (p, [])
  | Some dot =>
      let start := match rfind "/" p with
                   | Some sep => S sep
                   | None => 0
                   end in
      if Nat.leb start dot &&
         existsb (fun c => negb (Ascii.eqb c ".")) (firstn (dot - start) (skipn start p))
      then (firstn dot p, skipn dot p)
      else (p, [])
  end.

(** [os.path.join(a, b)] *)
Definition path_join (a b : str) : str :=
  if starts_with $"/" b then b
  else if str_eqb a [] || ends_with $"/" a then a ++ b
  else a ++ $"/" ++ b.

(** [l.pop()]: the list without its last element, and that element;
    [None] for the [IndexError] of an empty list. *)
Definition pop (l : list str) : option (list str * str) :=
  match rev l with
  | [] => None
  | x :: r => Some (rev r, x)
  end.

(** ** make_output_filename

    [None] stands for the [IndexError] of [parts.pop()]. *)
Definition make_output_filename (filename : str) : option str :=
  let parts := skipn 2 (split "/" filename) in
  match pop parts with
  | None => None
  | Some (parts, lastpart) =>
      let last := fst (splitext lastpart) in
      let outpath := $"./gen/c-headers/rust-" ++ join $"-" parts ++ $"-" ++ last ++ $"-gen.h" in
      Some (replace $"--" $"-" outpath)
  end.

(** The name of the include guard: the name of the output file with
    [_] for [-] and [.], in upper case. *)
Definition guard_name (output_filename : str) : str :=
  str_upper (replace $"." $"_" (replace $"-" $"_" (basename output_filename))).

(** A plain path component: not empty, without slash, dash or dot. *)
Definition plain (s : str) : Prop :=
  s <> [] /\
  forallb (fun c => negb (Ascii.eqb c "/" || Ascii.eqb c "-" || Ascii.eqb c ".")) s = true.

(** ** The header file *)

Definition nl : str := ["010"].

(** The text of [template], in two parts: the comment at its head
    and the include guard around the prototypes. *)
Definition template_comment : str :=
  $"/* Copyright (C) 2017 Open Information Security Foundation" ++ nl ++
  $" *" ++ nl ++
  $" * You can copy, redistribute or modify this Program under the terms of" ++ nl ++
  $" * the GNU General Public License version 2 as published by the Free" ++ nl ++
  $" * Software Foundation." ++ nl ++
  $" *" ++ nl ++
  $" * This program is distributed in the hope that it will be useful," ++ nl ++
  $" * but WITHOUT ANY WARRANTY; without even the implied warranty of" ++ nl ++
  $" * MERCHANTABILITY or FITNESS FOR A PARTICULAR PURPOSE.  See the" ++ nl ++
  $" * GNU General Public License for more details." ++ nl ++
  $" *" ++ nl ++
  $" * You should have received a copy of the GNU General Public License" ++ nl ++
  $" * version 2 along with this program; if not, write to the Free Software" ++ nl ++
  $" * Foundation, Inc., 51 Franklin Street, Fifth Floor, Boston, MA" ++ nl ++
  $" * 02110-1301, USA." ++ nl ++
  $" */" ++ nl ++
  nl ++
  $"/*" ++ nl ++
  $" * DO NOT EDIT. This file is automatically generated." ++ nl ++
  $" */" ++ nl ++
  nl.

Definition template_guard : str :=
  $"#ifndef __%(name)s__" ++ nl ++
  $"#define __%(name)s__" ++ nl ++
  nl ++
  $"%(prototypes)s" ++ nl ++
  $"#endif /* ! __%(name)s__ */" ++ nl.

Definition template : str := template_comment ++ template_guard.


(** The [%] operator with a dictionary on the right, for the
    conversions the template has: [%(key)s] gives the value of [key],
    [%%] a percent sign.  [None] stands for its exceptions: a key
    that the dictionary does not have, a format that is cut short or
    is none of the two. *)
Inductive fmt_state : Type :=
| Text                 (* outside a conversion *)
| Percent              (* after the percent sign *)
| Key (k : str)        (* inside the parentheses *)
| Conv (v : str).      (* after the key, before the conversion letter *)

Fixpoint percent_from (d : list (str * str)) (st : fmt_state) (t : str) : option str :=
  match t with
  | [] => match st with Text => Some [] | _ => None end
  | c :: t' =>
      match st with
      | Text =>
          if Ascii.eqb c "%" then percent_from d Percent t'
          else option_map (cons c) (percent_from d Text t')
      | Percent =>
          if Ascii.eqb c "(" then percent_from d (Key []) t'
          else if Ascii.eqb c "%" then option_map (cons "%") (percent_from d Text t')
          else None
      | Key k =>
          if Ascii.eqb c ")" then
            match get d k with
            | Some v => percent_from d (Conv v) t'
            | None => None
            end
          else percent_from d (Key (k ++ [c])) t'
      | Conv v =>
          if Ascii.eqb c "s" then option_map (app v) (percent_from d Text t')
          else None
      end
  end.

Definition percent (t : str) (d : list (str * str)) : option str :=
  percent_from d Text t.

(** What ends a run of [gen_headers] on a file, besides a return. *)
Inductive failure : Type :=
| IndexError             (* [parts.pop()] on an empty list *)
| OSError                (* [os.stat], [os.makedirs] *)
| IOError                (* [open], [read], [write], [print] *)
| FormatError            (* the [%] operator *)
| Raised (e : error).    (* an exception of the loop over the matches *)

(** The text written to the header: the template filled with the
    prototypes and the guard name.  The prototypes are unicode, so the
    other byte strings are decoded as ASCII. *)
Definition header_text (prototypes output_filename : str) : failure + str :=
  let name := guard_name output_filename in
  if forallb is_ascii name then
    match percent template [($"prototypes", prototypes); ($"name", name)] with
    | Some text => inr text
    | None => inl FormatError
    end
  else inl (Raised UnicodeDecodeError).

(** ** gen_headers on a file

    The file system and the standard output are a [world] that the
    script reaches through the calls below; each call that can raise
    gives the world it leaves and whether it returned. *)

Section Shell.

Variable tm : list (str * str).

Variable world : Type.
Variable stamp : Type.                                  (* [st_mtime] *)
Variable newer : stamp -> stamp -> bool.                (* [a > b] *)
Variable path_exists : world -> str -> bool.            (* [os.path.exists(p)] *)
Variable st_mtime : world -> str -> option stamp.       (* [os.stat(p).st_mtime] *)
Variable read : world -> str -> option str.             (* [open(p).read()] *)
Variable print : world -> str -> world * bool.          (* [print(s)] *)
Variable makedirs : world -> str -> world * bool.       (* [os.makedirs(p)] *)
Variable open_w : world -> str -> world * bool.         (* [open(p, "w")] *)
Variable write : world -> str -> str -> world * bool.   (* [output.write(s)], and the close *)

Definition should_regen (w : world) (input_filename output_filename : str)
  : failure + bool :=
  if negb (path_exists w output_filename) then inr true
  else
    match st_mtime w input_filename with
    | None => inl OSError
    | Some i =>
        match st_mtime w output_filename with
        | None => inl OSError
        | Some o => if newer i o then inr true else inr false
        end
    end.

(** The end of [gen_headers]: what it does with the contents of the
    writer. *)
Definition write_output (w : world) (output_filename prototypes : str)
  : world * option failure :=
  if Nat.ltb 0 (length prototypes) then
    let (w1, ok1) := print w ($"Writing " ++ output_filename) in
    if negb ok1 then (w1, Some IOError) else
    let (w2, ok2) :=
      if negb (path_exists w1 (dirname output_filename))
      then makedirs w1 (dirname output_filename)
      else (w1, true) in
    if negb ok2 then (w2, Some OSError) else
    let (w3, ok3) := open_w w2 output_filename in
    if negb ok3 then (w3, Some IOError) else
    match header_text prototypes output_filename with
    | inl e => (w3, Some e)
    | inr text =>
        let (w4, ok4) := write w3 output_filename text in
        if negb ok4 then (w4, Some IOError) else (w4, None)
    end
  else (w, None).

(** [gen_headers(filename)]: the world it leaves and the exception it
    ends with, if any. *)
Definition gen_headers_file (w : world) (filename : str) : world * option failure :=
  match make_output_filename filename with
  | None => (w, Some IndexError)
  | Some output_filename =>
      match should_regen w filename output_filename with
      | inl e => (w, Some e)
      | inr false => (w, None)
      | inr true =>
          match read w filename with
          | None => (w, Some IOError)
          | Some buf =>
              match gen_headers tm buf with
              | Raise e => (w, Some (Raised e))
              | Return prototypes => write_output w output_filename prototypes
              end
          end
      end
  end.

End Shell.


(** ** Declarations as they are written

    A closing parenthesis before the first brace of a text: the
    argument text of a match runs up to the last one. *)
Fixpoint closes (s : str) : bool :=
  match s with
  | [] => false
  | c :: s' =>
      if Ascii.eqb c "{" then false
      else if Ascii.eqb c ")" then true
      else closes s'
  end.

Definition nonbrace (c : ascii) : bool := negb (Ascii.eqb c "{").

(** The groups of a match of a declaration: [unsafe ], the name, the
    argument text when it is not empty, and the return type with the
    arrow before it. *)
Definition decl_groups (is_unsafe : bool) (fnName args : str) (ret : option (str * str))
  : list (nat * str) :=
  match ret with
  | Some (ws, t) => [(4, ws ++ $"-> " ++ t); (5, t)]
  | None => []
  end ++
  match args with [] => [] | _ => [(3, args)] end ++
  (2, fnName) :: (if is_unsafe then [(1, $"unsafe ")] else []).

(** The text of a declaration up to its body. *)
Definition decl_text (is_unsafe : bool) (fnName args : str) (ret : option (str * str)) : str :=
  decl_head is_unsafe fnName ++ args ++ $")" ++
  match ret with
  | Some (ws, t) => ws ++ $"-> " ++ t
  | None => []
  end.

(** What follows the closing parenthesis: a return type with its
    white space and arrow, or none, and the text [e] after it. *)
Definition returns_ok (ret : option (str * str)) (e : str) : Prop :=
  match ret with
  | None => opens_body e
  | Some (ws, t) =>
      ws <> [] /\ forallb isspace ws = true /\
      t <> [] /\ forallb nonbrace t = true /\ closes t = false /\
      match e with [] => True | c :: _ => c = "{" end
  end.


(** ** Declarations written out from a descriptor

    Text that starts and ends with a character that is not white
    space: what [strip] leaves as it is. *)
Definition trimmed (s : str) : bool :=
  match s with [] => false | c :: _ => nonspace c end &&
  match rev s with [] => false | c :: _ => nonspace c end.

(** A parameter as it is written: the name, a colon, a blank and the
    type. *)
Definition print_param (p : str * str) : str := fst p ++ $": " ++ snd p.

(** A declaration as it is written, up to the blank before its body:
    the parameters separated by a comma and a blank, the return type
    after a blank, the arrow and a blank. *)
Definition print_decl (is_unsafe : bool) (d : FunctionDescriptor) : str :=
  decl_head is_unsafe (name d) ++ join $", " (map print_param (parameters d)) ++ $")" ++
  match return_type d with
  | Some t => $" -> " ++ t
  | None => []
  end.

Definition arg_name_ok (n : str) : bool :=
  trimmed n &&
  forallb (fun c => negb (Ascii.eqb c ":" || Ascii.eqb c "," || Ascii.eqb c "{")) n.

Definition type_ok (t : str) : bool :=
  trimmed t && forallb (fun c => negb (Ascii.eqb c "," || Ascii.eqb c "{")) t.

Definition return_ok (t : str) : bool :=
  trimmed t && forallb (fun c => negb (Ascii.eqb c ")" || Ascii.eqb c "{")) t.

(** The descriptors that can be written out and read back: a name of
    the characters of the pattern, parameter names without colon,
    types without comma, a return type without closing parenthesis,
    and no brace anywhere. *)
Definition well_formed (d : FunctionDescriptor) : bool :=
  negb (str_eqb (name d) []) && forallb name_char (name d) &&
  forallb (fun p => arg_name_ok (fst p) && type_ok (snd p)) (parameters d) &&
  match return_type d with
  | Some t => return_ok t
  | None => true
  end.

(** The body of a declaration, or the end of the text. *)
Definition body (e : str) : Prop :=
  match e with
  | [] => True
  | c :: _ => c = "{"
  end.

(** The return type of a written declaration as the pattern takes
    it: the blank before the arrow, and the type with the blank before
    the body. *)
Definition written_return (d : FunctionDescriptor) : option (str * str) :=
  match return_type d with
  | Some t => Some ($" ", t ++ $" ")
  | None => None
  end.

(** * Properties *)

(** ** Strings and dictionaries *)

Lemma str_eqb_eq (a b : str) : str_eqb a b = true <-> a = b.
Proof.
  unfold str_eqb. destruct (list_eq_dec ascii_dec a b); split; congruence.
Qed.

Lemma str_eqb_refl (a : str) : str_eqb a a = true.
Proof. apply str_eqb_eq. reflexivity. Qed.

Lemma str_eqb_neq (a b : str) : str_eqb a b = false <-> a <> b.
Proof.
  unfold str_eqb. destruct (list_eq_dec ascii_dec a b); split; congruence.
Qed.

Lemma mem_In (x : str) (l : list str) : mem x l = true <-> In x l.
Proof.
  unfold mem. rewrite existsb_exists. split.
  - intros [y [Hy He]]. apply str_eqb_eq in He. subst. assumption.
  - intros H. exists x. split; [assumption | apply str_eqb_refl].
Qed.

Lemma mem_not_In (x : str) (l : list str) : mem x l = false <-> ~ In x l.
Proof.
  rewrite <- mem_In. destruct (mem x l); split; congruence.
Qed.

Lemma get_In (d : list (str * str)) (k v : str) :
  get d k = Some v -> In (k, v) d.
Proof.
  induction d as [|[k' v'] d IH]; simpl; [discriminate|].
  destruct (str_eqb k k') eqn:E.
  - apply str_eqb_eq in E. intros [= <-]. subst. left. reflexivity.
  - intros H. right. apply IH, H.
Qed.

Lemma In_get (d : list (str * str)) (k v : str) :
  NoDup (map fst d) -> In (k, v) d -> get d k = Some v.
Proof.
  induction d as [|[k' v'] d IH]; simpl; [contradiction|].
  intros Hnd [H|H].
  - injection H as -> ->. rewrite str_eqb_refl. reflexivity.
  - inversion Hnd as [|? ? Hk Hd]; subst.
    destruct (str_eqb k k') eqn:E.
    + apply str_eqb_eq in E. subst. exfalso. apply Hk.
      change k' with (fst (k', v)). apply in_map, H.
    + apply IH; assumption.
Qed.

Lemma get_None (d : list (str * str)) (k : str) :
  get d k = None <-> ~ In k (map fst d).
Proof.
  induction d as [|[k' v'] d IH]; simpl.
  - split; [intros _ []|reflexivity].
  - destruct (str_eqb k k') eqn:E.
    + apply str_eqb_eq in E. subst. split; [discriminate|]. intros H. exfalso. apply H. left. reflexivity.
    + apply str_eqb_neq in E. rewrite IH. split.
      * intros H [H'|H']; [congruence | contradiction].
      * intros H H'. apply H. right. assumption.
Qed.

(** A dictionary read by key gives the same answers whatever order
    its items are held in. *)
Lemma get_Permutation (d d' : list (str * str)) (k : str) :
  NoDup (map fst d) -> Permutation d d' -> get d k = get d' k.
Proof.
  intros Hnd Hp.
  assert (Hnd' : NoDup (map fst d')).
  { eapply Permutation_NoDup; [apply Permutation_map, Hp | assumption]. }
  destruct (get d k) as [v|] eqn:E.
  - symmetry. apply In_get; [assumption|].
    eapply Permutation_in; [exact Hp | apply get_In, E].
  - symmetry. apply get_None. apply get_None in E. intros H. apply E.
    eapply Permutation_in; [apply Permutation_map, Permutation_sym, Hp | assumption].
Qed.

Lemma type_map_NoDup : NoDup (map fst type_map).
Proof.
  assert (H : forall l : list str,
             (fix nd (l : list str) : bool :=
                match l with
                | [] => true
                | x :: l' => negb (mem x l') && nd l'
                end) l = true -> NoDup l).
  { induction l as [|x l IH]; intros H; constructor.
    - apply andb_prop in H. destruct H as [H _].
      apply negb_true_iff, mem_not_In in H. assumption.
    - apply andb_prop in H. apply IH, H. }
  apply H. vm_compute. reflexivity.
Qed.

Lemma drop_while_stop (p : ascii -> bool) (c : ascii) (s : str) :
  p c = false -> drop_while p (c :: s) = c :: s.
Proof. simpl. intros ->. reflexivity. Qed.

Lemma token_head (s : str) :
  token s -> exists c s', s = c :: s' /\ isspace c = false /\ forallb nonspace s' = true.
Proof.
  intros [Hne Hall]. destruct s as [|c s']; [congruence|].
  simpl in Hall. apply andb_prop in Hall. destruct Hall as [Hc Hs].
  exists c, s'. repeat split; try assumption.
  unfold nonspace in Hc. apply negb_true_iff in Hc. assumption.
Qed.

Lemma lstrip_token (s : str) : token s -> lstrip s = s.
Proof.
  intros H. destruct (token_head s H) as (c & s' & -> & Hc & _).
  apply drop_while_stop, Hc.
Qed.

Lemma rstrip_token (s : str) : token s -> rstrip s = s.
Proof.
  intros [Hne Hall]. unfold rstrip.
  destruct (rev s) as [|c r] eqn:E.
  - apply (f_equal (@rev ascii)) in E. rewrite rev_involutive in E. simpl in E. congruence.
  - assert (Hc : isspace c = false).
    { rewrite forallb_forall in Hall. specialize (Hall c).
      unfold nonspace in Hall. apply negb_true_iff, Hall.
      apply in_rev. rewrite E. left. reflexivity. }
    rewrite drop_while_stop by assumption. rewrite <- E. apply rev_involutive.
Qed.

(** Stripping a token that follows white space gives the token. *)
Lemma strip_space_token (w : ascii) (s : str) :
  isspace w = true -> token s -> strip (w :: s) = s.
Proof.
  intros Hw H. unfold strip, lstrip. simpl. rewrite Hw.
  fold (lstrip s). rewrite lstrip_token by assumption. apply rstrip_token, H.
Qed.

(** The three exceptions of [convert_type] are apart, whatever they
    are raised for. *)
Lemma error_kinds (a b c d : str) :
  UnknownType a <> UnrecognizedTypeExpression b /\
  UnknownModifier c d <> UnrecognizedTypeExpression b /\
  UnknownModifier c d <> UnknownType a.
Proof.
  unfold UnknownType, UnrecognizedTypeExpression, UnknownModifier.
  repeat split; simpl; discriminate.
Qed.

(** ** The result monad *)

Lemma for_each_ext {A B : Type} (f g : A -> result B) (l : list A) :
  (forall a, In a l -> f a = g a) -> for_each f l = for_each g l.
Proof.
  induction l as [|a l IH]; simpl; intros H; [reflexivity|].
  rewrite (H a) by (left; reflexivity).
  rewrite IH by (intros; apply H; right; assumption). reflexivity.
Qed.

Lemma for_each_Return {A B : Type} (f : A -> result B) (l : list A) (bs : list B) :
  for_each f l = Return bs <-> Forall2 (fun a b => f a = Return b) l bs.
Proof.
  revert bs. induction l as [|a l IH]; simpl; intros bs.
  - split.
    + intros [= <-]. constructor.
    + intros H. inversion H. reflexivity.
  - split.
    + destruct (f a) as [b|e] eqn:Ea; simpl; [|discriminate].
      destruct (for_each f l) as [bs'|e] eqn:El; simpl; [|discriminate].
      intros [= <-]. constructor; [assumption | apply IH; reflexivity].
    + intros H. inversion H as [|? b ? bs' Ha Hl]; subst.
      rewrite Ha. simpl. apply IH in Hl. rewrite Hl. reflexivity.
Qed.

Lemma Forall2_In_r {A B : Type} (R : A -> B -> Prop) (l : list A) (l' : list B) (b : B) :
  Forall2 R l l' -> In b l' -> exists a, In a l /\ R a b.
Proof.
  induction 1 as [|x y l l' Hxy _ IH]; simpl; [contradiction|].
  intros [<-|H].
  - exists x. split; [left; reflexivity | assumption].
  - destruct (IH H) as (a & Ha & HR). exists a. split; [right|]; assumption.
Qed.

Lemma for_each_total {A B : Type} (f : A -> result B) (l : list A) :
  (forall a, In a l -> exists b, f a = Return b) ->
  exists bs, for_each f l = Return bs.
Proof.
  induction l as [|a l IH]; simpl; intros H.
  - exists []. reflexivity.
  - destruct (H a) as [b Hb]; [left; reflexivity|].
    destruct IH as [bs Hbs]; [intros; apply H; right; assumption|].
    exists (b :: bs). rewrite Hb, Hbs. reflexivity.
Qed.

(** ** The matcher *)

Arguments isspace : simpl never.

Section Many.

Variable p : ascii -> bool.
Variable k : state -> option state.
Variable g : list (nat * str).

(** The repetition fails when the rest of the pattern fails wherever
    the repetition can stop. *)
Lemma many_None (P : str -> Prop) :
  (forall c s, P (c :: s) -> p c = true -> P s) ->
  (forall n b s, P s -> k {| taken := n; before := b; ahead := s; groups := g |} = None) ->
  forall s n b, P s -> many p k n b g s = None.
Proof.
  intros Hstep Hk. induction s as [|c s IH]; intros n b HP; simpl.
  - apply Hk, HP.
  - destruct (p c) eqn:Ec.
    + rewrite IH by (eapply Hstep; eassumption). apply Hk, HP.
    + apply Hk, HP.
Qed.

(** The repetition stops where it is when it cannot go on, or when
    going on fails. *)
Lemma many_here (s : str) (n : nat) (b : option ascii) :
  match s with
  | c :: s' => p c = false \/ many p k (S n) (Some c) g s' = None
  | [] => True
  end ->
  many p k n b g s = k {| taken := n; before := b; ahead := s; groups := g |}.
Proof.
  destruct s as [|c s']; simpl; [reflexivity|].
  intros [H|H].
  - rewrite H. reflexivity.
  - destruct (p c); [rewrite H|]; reflexivity.
Qed.

(** A success after a longer run is the result. *)
Lemma many_app (pre rest : str) (n : nat) (b : option ascii) (r : state) :
  forallb p pre = true ->
  many p k (n + length pre) (before_after b pre) g rest = Some r ->
  many p k n b g (pre ++ rest) = Some r.
Proof.
  revert n b. induction pre as [|c pre IH]; intros n b Hall H; simpl in *.
  - rewrite Nat.add_0_r in H. assumption.
  - apply andb_prop in Hall. destruct Hall as [Hc Hall]. rewrite Hc.
    rewrite (IH (S n) (Some c)); [reflexivity | assumption |].
    rewrite Nat.add_succ_l, <- Nat.add_succ_r. assumption.
Qed.

(** A run to the end of the text, after which the rest of the pattern
    succeeds. *)
Lemma many_all (s : str) (n : nat) (b : option ascii) (r : state) :
  forallb p s = true ->
  k {| taken := n + length s; before := before_after b s; ahead := [];
       groups := g |} = Some r ->
  many p k n b g s = Some r.
Proof.
  intros Hall H. rewrite <- (app_nil_r s). apply many_app; assumption.
Qed.

End Many.

Lemma has_space (fl : flags) (c : ascii) : cset_has fl (Set_ [Space]) c = isspace c.
Proof. simpl. apply orb_false_r. Qed.

Lemma has_nonspace (fl : flags) (c : ascii) :
  cset_has fl (NotSet [Space]) c = nonspace c.
Proof. unfold nonspace. simpl. rewrite orb_false_r. reflexivity. Qed.

Lemma has_nonbrace (fl : flags) (c : ascii) :
  cset_has fl (NotSet [Chr "{"]) c = negb (Ascii.eqb c "{").
Proof. simpl. rewrite orb_false_r. reflexivity. Qed.

Lemma forallb_ext_eq (p q : ascii -> bool) (s : str) :
  (forall c, p c = q c) -> forallb p s = forallb q s.
Proof.
  intros H. induction s as [|c s IH]; simpl; [reflexivity|]. rewrite H, IH. reflexivity.
Qed.

(** *** The two patterns of convert_type *)

(** A text with white space before a token is not one token. *)
Lemma re_token_None (m : str) (w : ascii) (bb : str) :
  isspace w = true -> bb <> [] ->
  match_ no_flags re_token (m ++ w :: bb) = None.
Proof.
  intros Hw Hbb. unfold match_, exec, re_token. cbn [run at_bol before].
  set (P := fun s : str => exists pre, s = pre ++ w :: bb).
  assert (HP : P (m ++ w :: bb)) by (exists m; reflexivity).
  assert (Hstep : forall c s, P (c :: s) -> nonspace c = true -> P s).
  { intros c s [pre E] Hc. destruct pre as [|c' pre]; simpl in E.
    - injection E as -> _. unfold nonspace in Hc. rewrite Hw in Hc. discriminate.
    - injection E as _ ->. exists pre. reflexivity. }
  assert (Hk : forall n b s, P s ->
            run no_flags Eol Some {| taken := n; before := b; ahead := s; groups := [] |} = None).
  { intros n b s [pre ->]. cbn [run at_eol ahead].
    destruct pre as [|c [|c' pre]]; simpl.
    - destruct bb; [congruence | reflexivity].
    - reflexivity.
    - reflexivity. }
  destruct (m ++ w :: bb) as [|c s] eqn:E; [reflexivity|].
  cbn [ahead taken before groups]. rewrite has_nonspace.
  destruct (nonspace c) eqn:Ec; [|reflexivity].
  erewrite many_None with (P := P); [reflexivity | | | ].
  - intros c0 s0 H0 H1. rewrite has_nonspace in H1. eapply Hstep; eassumption.
  - exact Hk.
  - eapply Hstep; eassumption.
Qed.

(** White space and a token after a prefix on one line: the second
    pattern matches, group 1 is the prefix and group 2 the rest. *)
Lemma re_modified_Some (m : str) (w : ascii) (bb : str) :
  forallb (fun c => negb (Ascii.eqb c "010")) m = true ->
  isspace w = true -> token bb ->
  exists mt, match_ no_flags re_modified (m ++ w :: bb) = Some mt /\
             group mt 1 = m /\ group mt 2 = w :: bb.
Proof.
  intros Hm Hw Hbb.
  destruct (token_head bb Hbb) as (c & s' & -> & Hc & Hs').
  unfold match_, exec, re_modified. cbn [run at_bol before taken groups ahead].
  eexists. split.
  - erewrite many_app; [reflexivity | exact Hm |].
    rewrite many_here.
    + cbn [run taken before ahead groups]. rewrite has_space, Hw.
      rewrite has_nonspace. unfold nonspace at 1. rewrite Hc. cbn [negb].
      apply many_all.
      * erewrite forallb_ext_eq; [exact Hs' | intros; apply has_nonspace].
      * cbn [run at_eol ahead taken before groups]. reflexivity.
    + right.
      apply many_None with (P := fun s => forallb nonspace s = true).
      * intros d s H _. simpl in H. apply andb_prop in H. apply H.
      * intros n b s H. cbn [run taken before ahead groups].
        destruct s as [|d s]; [reflexivity|].
        rewrite has_space. simpl in H. apply andb_prop in H. destruct H as [H _].
        unfold nonspace in H. apply negb_true_iff in H. rewrite H. reflexivity.
      * simpl. unfold nonspace at 1. rewrite Hc. exact Hs'.
  - unfold group. cbn [captured groups taken group_of Nat.eqb]. split.
    + rewrite Nat.sub_0_r, Nat.add_0_l, firstn_app, firstn_all, Nat.sub_diag.
      simpl. apply app_nil_r.
    + apply firstn_all2. cbn [length]. lia.
Qed.

(** A text without white space has no white space before a token. *)
Lemma re_modified_None (s : str) :
  forallb nonspace s = true -> match_ no_flags re_modified s = None.
Proof.
  intros Hs. unfold match_, exec, re_modified.
  cbn [run at_bol before taken groups ahead].
  rewrite many_None with (P := fun s => forallb nonspace s = true); [reflexivity | | | exact Hs].
  - intros d t H _. simpl in H. apply andb_prop in H. apply H.
  - intros n b t H. cbn [run taken before ahead groups].
    destruct t as [|d t]; [reflexivity|].
    rewrite has_space. simpl in H. apply andb_prop in H. destruct H as [H _].
    unfold nonspace in H. apply negb_true_iff in H. rewrite H. reflexivity.
Qed.

(** A token matches the first pattern. *)
Lemma re_token_Some (s : str) :
  token s -> exists mt, match_ no_flags re_token s = Some mt.
Proof.
  intros H. destruct (token_head s H) as (c & s' & -> & Hc & Hs').
  unfold match_, exec, re_token. cbn [run at_bol before taken groups ahead].
  rewrite has_nonspace. unfold nonspace at 1. rewrite Hc. cbn [negb].
  erewrite many_all; [eexists; reflexivity | |].
  - erewrite forallb_ext_eq; [exact Hs' | intros; apply has_nonspace].
  - cbn [run at_eol ahead]. reflexivity.
Qed.

(** ** convert_type *)

Section TranslatorFacts.

Variable tm : list (str * str).

(** A token that is a key translates to its value. *)
Lemma convert_type_key (b c : str) :
  token b -> get tm b = Some c -> convert_type tm b = Return c.
Proof.
  intros Hb Hc. unfold convert_type.
  destruct (re_token_Some b Hb) as [mt ->]. rewrite Hc. reflexivity.
Qed.

(** A text without white space that is not a key is not parsed. *)
Lemma convert_type_not_key (rs : str) :
  forallb nonspace rs = true -> get tm rs = None ->
  convert_type tm rs = Raise (UnrecognizedTypeExpression rs).
Proof.
  intros Hs Hg. unfold convert_type. rewrite Hg.
  assert (E : convert_modified tm rs = Raise (UnrecognizedTypeExpression rs)).
  { unfold convert_modified. rewrite re_modified_None by assumption. reflexivity. }
  rewrite E. destruct (match_ no_flags re_token rs); reflexivity.
Qed.

(** A one-line prefix, white space and a token: the table is read for
    the token first, the prefix is looked at after. *)
Lemma convert_type_prefixed (m : str) (w : ascii) (bb : str) :
  forallb (fun c => negb (Ascii.eqb c "010")) m = true ->
  isspace w = true -> token bb ->
  convert_type tm (m ++ w :: bb) =
  match get tm bb with
  | Some c =>
      if mem (strip m) mut_spellings then Return (c ++ $" *")
      else if mem (strip m) const_spellings then Return ($"const " ++ c ++ $" *")
      else if mem (strip m) mut_const_spellings then Return (c ++ $" **")
      else Raise (UnknownModifier (strip m) (m ++ w :: bb))
  | None => Raise (UnknownType bb)
  end.
Proof.
  intros Hm Hw Hbb. unfold convert_type.
  rewrite re_token_None by (try assumption; apply Hbb).
  unfold convert_modified.
  destruct (re_modified_Some m w bb Hm Hw Hbb) as (mt & -> & -> & ->).
  rewrite strip_space_token by assumption. reflexivity.
Qed.

End TranslatorFacts.

(** Every key of the table is a token. *)
Lemma type_map_keys (b c : str) : get type_map b = Some c -> token b.
Proof.
  intros H. apply get_In in H.
  assert (Hall : forallb (fun kv => negb (str_eqb (fst kv) []) && forallb nonspace (fst kv))
                   type_map = true) by (vm_compute; reflexivity).
  rewrite forallb_forall in Hall. specialize (Hall _ H). simpl in Hall.
  apply andb_prop in Hall. destruct Hall as [Hne Hns]. split; [|assumption].
  apply negb_true_iff, str_eqb_neq in Hne. assumption.
Qed.

Lemma spelling_facts (m : str) :
  In m (mut_spellings ++ const_spellings ++ mut_const_spellings) ->
  forallb (fun c => negb (Ascii.eqb c "010")) m = true /\ strip m = m.
Proof.
  intros H. simpl in H.
  repeat (destruct H as [<-|H]; [split; vm_compute; reflexivity|]). contradiction.
Qed.

(** C1: every base type of the table, alone, translates to exactly its
    mapped value; prefixed by a recognized modifier spelling and a
    space it translates to the mapped value decorated by that
    spelling's template and nothing else: [ *] appended for the
    mutable pointers and references, [const ] before and [ *] after
    for the const pointers, [ **] appended for the pointers to const
    pointers. *)
Theorem convert_type_table (b c : str) :
  get type_map b = Some c ->
  convert_type type_map b = Return c /\
  (forall m, In m mut_spellings ->
     convert_type type_map (m ++ $" " ++ b) = Return (c ++ $" *")) /\
  (forall m, In m const_spellings ->
     convert_type type_map (m ++ $" " ++ b) = Return ($"const " ++ c ++ $" *")) /\
  (forall m, In m mut_const_spellings ->
     convert_type type_map (m ++ $" " ++ b) = Return (c ++ $" **")).
Proof.
  intros Hg. pose proof (type_map_keys b c Hg) as Hb.
  split; [apply convert_type_key; assumption|].
  assert (Hpre : forall m, In m (mut_spellings ++ const_spellings ++ mut_const_spellings) ->
            convert_type type_map (m ++ $" " ++ b) =
            if mem m mut_spellings then Return (c ++ $" *")
            else if mem m const_spellings then Return ($"const " ++ c ++ $" *")
            else if mem m mut_const_spellings then Return (c ++ $" **")
            else Raise (UnknownModifier m (m ++ $" " ++ b))).
  { intros m Hm. destruct (spelling_facts m Hm) as [Hnl Hst].
    change (m ++ $" " ++ b) with (m ++ " " :: b).
    rewrite convert_type_prefixed by (try assumption; reflexivity).
    rewrite Hg, Hst. reflexivity. }
  repeat split; intros m Hm; rewrite Hpre.
  - simpl in Hm. repeat (destruct Hm as [<-|Hm]; [reflexivity|]). contradiction.
  - apply in_or_app. left. assumption.
  - simpl in Hm. repeat (destruct Hm as [<-|Hm]; [reflexivity|]). contradiction.
  - apply in_or_app. right. apply in_or_app. left. assumption.
  - simpl in Hm. repeat (destruct Hm as [<-|Hm]; [reflexivity|]). contradiction.
  - apply in_or_app. right. apply in_or_app. right. assumption.
Qed.

Lemma convert_type_table_witness :
  get type_map $"DNSState" = Some $"RSDNSState" /\
  convert_type type_map $"DNSState" = Return $"RSDNSState" /\
  convert_type type_map $"&'static mut DNSState" = Return $"RSDNSState *" /\
  convert_type type_map $"* const DNSState" = Return $"const RSDNSState *" /\
  convert_type type_map $"*mut*const DNSState" = Return $"RSDNSState **".
Proof.
  assert (Hg : get type_map $"DNSState" = Some $"RSDNSState") by reflexivity.
  destruct (convert_type_table _ _ Hg) as (H0 & H1 & H2 & H3).
  split; [exact Hg|]. split; [exact H0|]. split; [|split].
  - apply (H1 $"&'static mut"). simpl. tauto.
  - apply (H2 $"* const"). simpl. tauto.
  - apply (H3 $"*mut*const"). simpl. tauto.
Defined.

(** C3: what the code does with a bare token that is not in the
    table.  The first test finds the token but not the key and falls
    through; the second pattern needs white space and fails; the
    exception is the last one of the function, [Failed to parse Rust
    type], and not [Unknown type], which only the branch for prefixed
    types raises. *)
Theorem convert_type_unknown_token (rs : str) :
  token rs -> get type_map rs = None ->
  convert_type type_map rs = Raise (UnrecognizedTypeExpression rs) /\
  convert_type type_map rs <> Raise (UnknownType rs).
Proof.
  intros [_ Hs] Hg. rewrite convert_type_not_key by assumption.
  split; [reflexivity|]. intros H.
  destruct (error_kinds rs rs rs rs) as (Hk & _). apply Hk. congruence.
Qed.

Lemma convert_type_unknown_token_witness :
  convert_type type_map $"usize" = Raise (UnrecognizedTypeExpression $"usize") /\
  convert_type type_map $"usize" <> Raise (UnknownType $"usize").
Proof.
  apply (convert_type_unknown_token $"usize").
  - split; [discriminate | reflexivity].
  - reflexivity.
Defined.

(** C9, as the code has it: a prefix on one line, a white space
    character and a token that is not in the table raise
    [Unknown type] for the token, whatever the prefix is. *)
Theorem convert_type_unknown_base (m : str) (w : ascii) (bb : str) :
  forallb (fun c => negb (Ascii.eqb c "010")) m = true ->
  isspace w = true -> token bb ->
  get type_map bb = None ->
  convert_type type_map (m ++ w :: bb) = Raise (UnknownType bb).
Proof.
  intros Hm Hw Hbb Hg. rewrite convert_type_prefixed by assumption.
  rewrite Hg. reflexivity.
Qed.

Lemma convert_type_unknown_base_witness :
  convert_type type_map $"*weird usize" = Raise (UnknownType $"usize").
Proof.
  apply (convert_type_unknown_base $"*weird" " " $"usize").
  - reflexivity.
  - reflexivity.
  - split; [discriminate | reflexivity].
  - reflexivity.
Defined.

(** C9 fails when the prefix runs over a line end: [.] stops at a
    line feed, the second pattern does not match, and the exception is
    [Failed to parse Rust type] although the base is not in the
    table. *)
Lemma convert_type_unknown_base_counterexample :
  let rs := $"*mut" ++ ["010"] ++ $" *const usize" in
  get type_map $"usize" = None /\
  convert_type type_map rs = Raise (UnrecognizedTypeExpression rs) /\
  convert_type type_map rs <> Raise (UnknownType $"usize").
Proof.
  cbv zeta. split; [reflexivity|]. split; [vm_compute; reflexivity|].
  vm_compute. discriminate.
Qed.

(** C6, as the code has it: a prefix on one line, a white space
    character and a base type of the table raise [Unknown modifier]
    when the prefix, stripped, is none of the spellings of the three
    tests. *)
Theorem convert_type_unknown_modifier (m : str) (w : ascii) (bb c : str) :
  forallb (fun c => negb (Ascii.eqb c "010")) m = true ->
  isspace w = true ->
  get type_map bb = Some c ->
  ~ In (strip m) (mut_spellings ++ const_spellings ++ mut_const_spellings) ->
  convert_type type_map (m ++ w :: bb) =
  Raise (UnknownModifier (strip m) (m ++ w :: bb)).
Proof.
  intros Hm Hw Hg Hn.
  rewrite convert_type_prefixed by (try assumption; eapply type_map_keys; eassumption).
  rewrite Hg.
  assert (H1 : mem (strip m) mut_spellings = false).
  { apply mem_not_In. intros H. apply Hn, in_or_app. left. assumption. }
  assert (H2 : mem (strip m) const_spellings = false).
  { apply mem_not_In. intros H. apply Hn, in_or_app. right. apply in_or_app. left. assumption. }
  assert (H3 : mem (strip m) mut_const_spellings = false).
  { apply mem_not_In. intros H. apply Hn, in_or_app. right. apply in_or_app. right. assumption. }
  rewrite H1, H2, H3. reflexivity.
Qed.

Lemma convert_type_unknown_modifier_witness :
  convert_type type_map $"*mut *const *mut u8" =
  Raise (UnknownModifier $"*mut *const *mut" $"*mut *const *mut u8").
Proof.
  apply (convert_type_unknown_modifier $"*mut *const *mut" " " $"u8" $"uint8_t").
  - reflexivity.
  - reflexivity.
  - reflexivity.
  - vm_compute. intuition discriminate.
Defined.

(** C6 fails when the prefix runs over a line end: the second pattern
    does not match and the exception is [Failed to parse Rust type],
    although the base is in the table and the prefix is none of the
    spellings. *)
Lemma convert_type_unknown_modifier_counterexample :
  let m := $"*mut" ++ ["010"] ++ $" *const" in
  let rs := m ++ $" u8" in
  get type_map $"u8" = Some $"uint8_t" /\
  ~ In m (mut_spellings ++ const_spellings ++ mut_const_spellings) /\
  convert_type type_map rs = Raise (UnrecognizedTypeExpression rs) /\
  convert_type type_map rs <> Raise (UnknownModifier m rs).
Proof.
  cbv zeta. split; [reflexivity|]. split; [vm_compute; intuition discriminate|].
  split; [vm_compute; reflexivity|]. vm_compute. discriminate.
Qed.

(** ** The scan *)






Lemma skipn_cons (buf : str) (pos : nat) (c : ascii) (s : str) :
  skipn pos buf = c :: s ->
  skipn (S pos) buf = s /\ nth_error buf pos = Some c /\ pos < length buf.
Proof.
  revert pos. induction buf as [|d buf IH]; intros pos H.
  - rewrite skipn_nil in H. discriminate.
  - destruct pos as [|pos]; simpl in *.
    + injection H as -> ->. repeat split. lia.
    + apply IH in H. destruct H as (H1 & H2 & H3). repeat split; try assumption. lia.
Qed.


Section ScanFacts.

Variable fl : flags.
Variable r : regex.
Variable buf : str.

(** Every match of the scan is a match of the pattern at its offset. *)
Lemma scan_sound :
  forall s pos skip, skipn pos buf = s -> pos <= length buf ->
  forall p m, In (p, m) (scan fl r pos skip (before_at buf pos) s) ->
  pos + skip <= p /\ p <= length buf /\ exec_at fl r buf p = Some m.
Proof.
  induction s as [|c s IH]; intros pos skip Hs Hpos p m Hin.
  - destruct skip as [|k]; simpl in Hin; [|contradiction].
    destruct (exec fl r (before_at buf pos) []) as [m0|] eqn:E; [|contradiction].
    destruct Hin as [[= <- <-]|[]]. repeat split; try lia.
    unfold exec_at. rewrite Hs. exact E.
  - destruct (skipn_cons _ _ _ _ Hs) as (Hs' & Hn & Hlt).
    assert (Hb : before_at buf (S pos) = Some c) by exact Hn.
    destruct skip as [|k]; simpl in Hin.
    + destruct (exec fl r (before_at buf pos) (c :: s)) as [m0|] eqn:E.
      * destruct Hin as [[= <- <-]|Hin].
        -- repeat split; try lia. unfold exec_at. rewrite Hs. exact E.
        -- rewrite <- Hb in Hin. apply IH in Hin; [|assumption|lia].
           destruct Hin as (H1 & H2 & H3). repeat split; try assumption. lia.
      * rewrite <- Hb in Hin. apply IH in Hin; [|assumption|lia].
        destruct Hin as (H1 & H2 & H3). repeat split; try assumption. lia.
    + rewrite <- Hb in Hin. apply IH in Hin; [|assumption|lia].
      destruct Hin as (H1 & H2 & H3). repeat split; try assumption. lia.
Qed.

Hypothesis span_pos : forall b s m, exec fl r b s = Some m -> 1 <= span m.



End ScanFacts.

(** ** Reading and rendering a match *)

Lemma split1_colon (sep : ascii) (s : str) :
  In sep s -> exists a b, split1 sep s = [a; b].
Proof.
  induction s as [|c s IH]; simpl; [contradiction|].
  destruct (Ascii.eqb c sep) eqn:E.
  - intros _. exists [], s. reflexivity.
  - intros [H|H].
    + subst. rewrite Ascii.eqb_refl in E. discriminate.
    + destruct (IH H) as (a & b & ->). exists (c :: a), b. reflexivity.
Qed.

Lemma split1_no_colon (sep : ascii) (s : str) :
  ~ In sep s -> split1 sep s = [s].
Proof.
  induction s as [|c s IH]; simpl; [reflexivity|].
  intros H. destruct (Ascii.eqb c sep) eqn:E.
  - apply Ascii.eqb_eq in E. exfalso. apply H. left. assumption.
  - rewrite IH; [reflexivity|]. intros H'. apply H. right. assumption.
Qed.

(** A piece splits into a name and a type when it has a colon, and
    only then. *)
Lemma parse_arg_colon (arg : str) :
  In ":" arg -> exists p, parse_arg arg = Return p.
Proof.
  intros H. unfold parse_arg. destruct (split1_colon ":" arg H) as (a & b & ->).
  eexists. reflexivity.
Qed.

Lemma parse_arg_no_colon (arg : str) :
  ~ In ":" arg -> parse_arg arg = Raise ValueError.
Proof.
  intros H. unfold parse_arg. rewrite split1_no_colon by assumption. reflexivity.
Qed.

Section GeneratorFacts.

Variable tm : list (str * str).

(** Rendering the pieces one by one is rendering the parameters read
    from them. *)
Lemma render_args_params (l : list str) (ps : list (str * str)) :
  for_each parse_arg l = Return ps ->
  for_each (render_arg tm) l = for_each (render_param tm) ps.
Proof.
  revert ps. induction l as [|a l IH]; simpl; intros ps.
  - intros [= <-]. reflexivity.
  - unfold render_arg at 1. destruct (parse_arg a) as [q|e]; simpl; [|discriminate].
    destruct (for_each parse_arg l) as [qs|e]; simpl; [|discriminate].
    intros [= <-]. simpl. rewrite (IH qs eq_refl). reflexivity.
Qed.

(** The line written for a match is the line of its descriptor. *)
Lemma render_fn_describe (fn : mtch) (d : FunctionDescriptor) :
  describe fn = Return d -> render_fn tm fn = render_descriptor tm d.
Proof.
  unfold describe, render_fn, render_descriptor.
  destruct (for_each parse_arg (pieces (fn_args fn))) as [ps|e] eqn:E; simpl; [|discriminate].
  intros [= <-]. simpl. rewrite (render_args_params _ _ E).
  unfold render_return. destruct (str_eqb (strip (fn_ret fn)) []); reflexivity.
Qed.

Lemma render_args_unread (l : list str) (e : error) :
  for_each parse_arg l = Raise e -> exists e', for_each (render_arg tm) l = Raise e'.
Proof.
  revert e. induction l as [|a l IH]; simpl; intros e; [discriminate|].
  unfold render_arg at 1. destruct (parse_arg a) as [q|e1]; simpl.
  - destruct (for_each parse_arg l) as [qs|e2]; simpl; [discriminate|].
    intros _. destruct (render_param tm q); simpl; [|eexists; reflexivity].
    destruct (IH e2 eq_refl) as [e' ->]. eexists. reflexivity.
  - intros _. eexists. reflexivity.
Qed.

(** A match that cannot be read cannot be rendered. *)
Lemma render_fn_unread (fn : mtch) (e : error) :
  describe fn = Raise e -> exists e', render_fn tm fn = Raise e'.
Proof.
  unfold describe, render_fn.
  destruct (for_each parse_arg (pieces (fn_args fn))) as [ps|e0] eqn:E; simpl; [discriminate|].
  intros _. destruct (render_args_unread _ _ E) as [e' ->]. eexists. reflexivity.
Qed.

Lemma gen_headers_lines (buf out : str) :
  gen_headers tm buf = Return out <->
  exists lines,
    Forall2 (fun fn l => render_fn tm fn = Return l) (findall fn_flags re_fn buf) lines /\
    out = concat lines.
Proof.
  unfold gen_headers. split.
  - destruct (for_each (render_fn tm) (findall fn_flags re_fn buf)) as [lines|e] eqn:E;
      simpl; [|discriminate].
    intros [= <-]. exists lines. split; [apply for_each_Return, E | reflexivity].
  - intros (lines & H & ->). apply for_each_Return in H. rewrite H. reflexivity.
Qed.


Lemma gen_headers_unread (buf : str) (e : error) :
  extract buf = Raise e -> exists e', gen_headers tm buf = Raise e'.
Proof.
  unfold extract, gen_headers.
  induction (findall fn_flags re_fn buf) as [|fn fns IH]; simpl; [discriminate|].
  destruct (describe fn) as [d|e0] eqn:Ed; simpl.
  - destruct (for_each describe fns) as [ds|e1]; simpl; [discriminate|].
    intros [= ->]. destruct (IH eq_refl) as [e' He'].
    destruct (render_fn tm fn); simpl; [|eexists; reflexivity].
    destruct (for_each (render_fn tm) fns); simpl in *; [discriminate | eexists; reflexivity].
  - intros _. destruct (render_fn_unread fn e0 Ed) as [e' ->]. eexists. reflexivity.
Qed.

End GeneratorFacts.

Lemma In_findall (buf : str) (fn : mtch) :
  In fn (findall fn_flags re_fn buf) <->
  exists p, In (p, fn) (finditer fn_flags re_fn buf).
Proof.
  unfold findall. rewrite in_map_iff. split.
  - intros [[p m] [E H]]. simpl in E. subst. exists p. assumption.
  - intros [p H]. exists (p, fn). split; [reflexivity | assumption].
Qed.

Lemma finditer_declared (buf : str) (p : nat) (fn : mtch) :
  In (p, fn) (finditer fn_flags re_fn buf) -> declared buf p fn.
Proof.
  intros H. unfold finditer in H.
  apply (scan_sound fn_flags re_fn buf buf 0 0 eq_refl (Nat.le_0_l _)) in H.
  destruct H as (_ & H1 & H2). split; assumption.
Qed.

(** The only exception of reading a match is the [ValueError] of
    the unpacking. *)
Lemma parse_arg_error (arg : str) (e : error) : parse_arg arg = Raise e -> e = ValueError.
Proof.
  unfold parse_arg. destruct (split1 ":" arg) as [|a [|b [|c l]]]; congruence.
Qed.









(** C2, as the code has it: when every piece of the argument text of
    every match has a colon, extraction returns a sequence of
    descriptors, one for each match and each read from a declaration
    of the text; text where the pattern does not match gives no
    descriptor. *)
Theorem extract_total (buf : str) :
  (forall fn arg, In fn (findall fn_flags re_fn buf) ->
                  In arg (pieces (fn_args fn)) -> In ":" arg) ->
  exists ds,
    extract buf = Return ds /\
    length ds = length (findall fn_flags re_fn buf) /\
    (forall d, In d ds -> exists p fn, declared buf p fn /\ describe fn = Return d).
Proof.
  intros Hcolon.
  assert (Hdesc : forall fn, In fn (findall fn_flags re_fn buf) ->
                    exists d, describe fn = Return d).
  { intros fn Hfn. unfold describe.
    destruct (for_each_total parse_arg (pieces (fn_args fn))) as [ps ->].
    - intros arg Harg. apply parse_arg_colon. eapply Hcolon; eassumption.
    - eexists. reflexivity. }
  destruct (for_each_total describe _ Hdesc) as [ds Hds].
  exists ds. split; [exact Hds|].
  apply for_each_Return in Hds. split.
  - symmetry. eapply Forall2_length. exact Hds.
  - intros d Hd. destruct (Forall2_In_r _ _ _ d Hds Hd) as (fn & Hfn & Hfd).
    apply In_findall in Hfn. destruct Hfn as [p Hp].
    exists p, fn. split; [apply finditer_declared, Hp | exact Hfd].
Qed.

Lemma extract_total_witness :
  let buf := decl_head false $"rs_dns_state_free" ++ $"state: *mut DNSState, _: u8) {" in
  exists ds, extract buf = Return ds /\
             length ds = length (findall fn_flags re_fn buf) /\
             (forall d, In d ds -> exists p fn, declared buf p fn /\ describe fn = Return d).
Proof.
  cbv zeta. apply extract_total.
  intros fn arg Hfn Harg. vm_compute in Hfn. destruct Hfn as [<-|[]].
  vm_compute in Harg. destruct Harg as [<-|[<-|[]]]; vm_compute; tauto.
Defined.

(** C2 fails on a declaration one of whose arguments has no colon:
    the pattern matches, and unpacking the split piece raises
    [ValueError], in extraction and so in generation. *)
Lemma extract_total_counterexample :
  let buf := decl_head false $"f" ++ $"x) {}" in
  length (findall fn_flags re_fn buf) = 1 /\
  extract buf = Raise ValueError /\
  gen_headers type_map buf = Raise ValueError.
Proof.
  cbv zeta. repeat split; vm_compute; reflexivity.
Qed.

(** ** The rendered parameter list *)




(** ** Two runs *)

Section TwoRuns.

Variables tm tm' : list (str * str).
Hypothesis same : forall k, get tm k = get tm' k.

Lemma convert_type_same (rs : str) : convert_type tm rs = convert_type tm' rs.
Proof.
  unfold convert_type, convert_modified. rewrite (same rs).
  destruct (match_ no_flags re_modified rs) as [m|]; [rewrite same|]; reflexivity.
Qed.

Lemma render_fn_same (fn : mtch) : render_fn tm fn = render_fn tm' fn.
Proof.
  unfold render_fn.
  rewrite (for_each_ext (render_arg tm) (render_arg tm')).
  - unfold render_return. rewrite convert_type_same. reflexivity.
  - intros a _. unfold render_arg. destruct (parse_arg a) as [[nm ty]|e]; simpl; [|reflexivity].
    rewrite convert_type_same. reflexivity.
Qed.

Lemma gen_headers_same (buf : str) : gen_headers tm buf = gen_headers tm' buf.
Proof.
  unfold gen_headers.
  rewrite (for_each_ext (render_fn tm) (render_fn tm')); [reflexivity|].
  intros fn _. apply render_fn_same.
Qed.

End TwoRuns.

(** C8: two runs on the same text write the same bytes.  A run holds
    the dictionary in an order of its own; the output depends on the
    text and on the items of the dictionary only. *)
Theorem gen_headers_deterministic (tm tm' : list (str * str)) (buf buf' : str) :
  Permutation type_map tm -> Permutation type_map tm' -> buf = buf' ->
  gen_headers tm buf = gen_headers tm' buf'.
Proof.
  intros H H' <-. apply gen_headers_same. intros k.
  rewrite <- (get_Permutation type_map tm k type_map_NoDup H).
  apply (get_Permutation type_map tm' k type_map_NoDup H').
Qed.

Lemma gen_headers_deterministic_witness :
  let buf := decl_head true $"rs_f" ++ $"_: *mut Flow, len: u32) -> u8 {" in
  gen_headers type_map buf = gen_headers (rev type_map) buf /\
  gen_headers type_map buf = Return ($"uint8_t rs_f(Flow *, uint32_t len);" ++ ["010"]).
Proof.
  cbv zeta. split.
  - apply gen_headers_deterministic.
    + apply Permutation_refl.
    + apply Permutation_rev.
    + reflexivity.
  - vm_compute. reflexivity.
Defined.

(** ** The declaration pattern, part by part *)

Lemma eat_app (lit : str) (n : nat) (b : option ascii) (s : str) :
  eat lit n b (lit ++ s) = Some (n + length lit, before_after b lit, s).
Proof.
  revert n b. induction lit as [|l lit IH]; intros n b; simpl.
  - rewrite Nat.add_0_r. reflexivity.
  - rewrite Ascii.eqb_refl, IH. f_equal. f_equal. f_equal. lia.
Qed.

(** A literal is not found in a text that starts with another
    character. *)
Lemma eat_other (lit : str) (n : nat) (b : option ascii) (s : str) :
  match lit with
  | [] => False
  | l :: _ => match s with [] => True | c :: _ => c <> l end
  end ->
  eat lit n b s = None.
Proof.
  destruct lit as [|l lit]; [contradiction|].
  destruct s as [|c s]; simpl; [reflexivity|].
  intros H. apply Ascii.eqb_neq in H. rewrite H. reflexivity.
Qed.

Lemma opens_body_tail (c : ascii) (s : str) :
  opens_body (c :: s) -> c <> "{" -> isspace c = true /\ opens_body s.
Proof.
  unfold opens_body. simpl. destruct (isspace c); [auto|]. intros H. contradiction.
Qed.

Lemma opens_body_head (c : ascii) (s : str) :
  opens_body (c :: s) -> isspace c = true \/ c = "{".
Proof.
  unfold opens_body. simpl. destruct (isspace c); auto.
Qed.

(** After the closing parenthesis, white space and a body: there is
    no return type, the optional group takes nothing. *)
Lemma run_returns_none (tail : str) (n : nat) (b : option ascii) (g : list (nat * str)) :
  opens_body tail ->
  run fn_flags re_returns Some {| taken := n; before := b; ahead := tail; groups := g |} =
  Some {| taken := n; before := b; ahead := tail; groups := g |}.
Proof.
  intros Hb. unfold re_returns. cbn [run taken before ahead groups].
  match goal with
  | |- match ?M with _ => _ end = _ => assert (E : M = None); [|rewrite E; reflexivity]
  end.
  destruct tail as [|c tail]; [reflexivity|].
  destruct (cset_has fn_flags (Set_ [Space]) c) eqn:Ec; [|reflexivity].
  rewrite has_space in Ec.
  apply many_None with (P := opens_body).
  - intros d s H Hd. rewrite has_space in Hd.
    apply opens_body_tail in H; [apply H|]. intros ->. discriminate.
  - intros n' b' s H. cbn [taken before ahead groups].
    rewrite eat_other; [reflexivity|]. simpl. destruct s as [|d s]; [exact I|].
    destruct (opens_body_head _ _ H) as [Hd| ->]; [|discriminate].
    intros ->. discriminate.
  - apply opens_body_tail in Hb; [apply Hb|]. intros ->. discriminate.
Qed.

(** An empty argument list: the optional group takes nothing, the
    parenthesis closes at once and no return type follows. *)
Lemma run_args_none (tail : str) (n : nat) (b : option ascii) (g : list (nat * str)) :
  opens_body tail ->
  run fn_flags (re_args >> Lit $")" >> re_returns) Some
    {| taken := n; before := b; ahead := ")" :: tail; groups := g |} =
  Some {| taken := S n; before := Some ")"; ahead := tail; groups := g |}.
Proof.
  intros Hb. unfold re_args. cbn [run taken before ahead groups].
  rewrite has_nonbrace. cbn [Ascii.eqb Bool.eqb negb andb].
  rewrite many_None with (P := opens_body).
  - change (eat $")" n b (")" :: tail)) with (eat $")" n b ($")" ++ tail)).
    rewrite eat_app. cbn [length before_after fold_left list_ascii_of_string].
    rewrite run_returns_none by assumption. f_equal. f_equal. lia.
  - intros d s H Hd. rewrite has_nonbrace in Hd.
    apply opens_body_tail in H; [apply H|]. intros ->. discriminate.
  - intros n' b' s H. cbn [taken before ahead groups].
    rewrite eat_other; [reflexivity|]. simpl. destruct s as [|d s]; [exact I|].
    destruct (opens_body_head _ _ H) as [Hd| ->]; [|discriminate].
    intros ->. discriminate.
  - assumption.
Qed.

Lemma name_char_paren : name_char "(" = false.
Proof. reflexivity. Qed.

(** The name group takes a run of name characters that ends at the
    opening parenthesis. *)
Lemma run_name (nm rest : str) (n : nat) (b : option ascii) (g : list (nat * str))
    (k : state -> option state) (r : state) :
  nm <> [] -> forallb name_char nm = true ->
  k {| taken := n + length nm; before := before_after b nm; ahead := "(" :: rest;
       groups := (2, nm) :: g |} = Some r ->
  run fn_flags re_name k {| taken := n; before := b; ahead := nm ++ "(" :: rest; groups := g |}
  = Some r.
Proof.
  intros Hne Hall Hk. destruct nm as [|c nm]; [congruence|].
  simpl in Hall. apply andb_prop in Hall. destruct Hall as [Hc Hall].
  unfold re_name. cbn [run taken before ahead groups app].
  fold (name_char c). rewrite Hc.
  apply many_app; [exact Hall|].
  rewrite many_here by (left; exact name_char_paren).
  cbn [taken before ahead groups].
  replace (firstn (S n + length nm - n) (c :: nm ++ "(" :: rest)) with (c :: nm).
  - cbn [length before_after fold_left] in Hk.
    replace (S n + length nm) with (n + S (length nm)) by lia. exact Hk.
  - replace (S n + length nm - n) with (S (length nm)) by lia.
    cbn [firstn]. f_equal. rewrite firstn_app, firstn_all, Nat.sub_diag.
    simpl. rewrite app_nil_r. reflexivity.
Qed.

(** The name group fails on a name with a character that the set does
    not have: wherever the run stops, no opening parenthesis follows. *)
Lemma run_name_None (pre : str) (c : ascii) (rest : str) (n : nat) (b : option ascii)
    (g : list (nat * str)) (k : state -> option state) :
  forallb name_char pre = true -> name_char c = false -> c <> "(" ->
  (forall st, match ahead st with "(" :: _ => False | _ => True end -> k st = None) ->
  run fn_flags re_name k
    {| taken := n; before := b; ahead := pre ++ c :: rest; groups := g |} = None.
Proof.
  intros Hpre Hc Hparen Hk. unfold re_name. cbn [run taken before ahead groups].
  set (P := fun s : str => exists pre', s = pre' ++ c :: rest /\ forallb name_char pre' = true).
  assert (Hstep : forall d s, P (d :: s) -> name_char d = true -> P s).
  { intros d s (pre' & E & Hall) Hd. destruct pre' as [|d' pre']; simpl in E.
    - injection E as -> _. congruence.
    - injection E as _ ->. simpl in Hall. apply andb_prop in Hall.
      exists pre'. split; [reflexivity | apply Hall]. }
  assert (Hhead : forall s, P s -> match s with "(" :: _ => False | _ => True end).
  { intros s (pre' & -> & Hall). destruct pre' as [|d pre']; simpl.
    - destruct c as [[] [] [] [] [] [] [] []]; try exact I. apply Hparen. reflexivity.
    - simpl in Hall. apply andb_prop in Hall. destruct Hall as [Hd _].
      destruct d as [[] [] [] [] [] [] [] []]; try exact I. discriminate. }
  assert (HP : P (pre ++ c :: rest)) by (exists pre; split; [reflexivity | assumption]).
  destruct (pre ++ c :: rest) as [|d s] eqn:E; [reflexivity|].
  fold (name_char d). destruct (name_char d) eqn:Ed; [|reflexivity].
  apply many_None with (P := P).
  - exact Hstep.
  - intros n' b' s' HP'. apply Hk. cbn [ahead]. apply Hhead, HP'.
  - eapply Hstep; eassumption.
Qed.

(** A declaration without arguments and without return type: the
    match ends at the closing parenthesis and has the name as its only
    group, besides [unsafe ]. *)
Lemma run_decl_noargs (b : option ascii) (u : bool) (nm tail : str) :
  b = None \/ b = Some "010" ->
  nm <> [] -> forallb name_char nm = true -> opens_body tail ->
  run fn_flags re_fn Some
    {| taken := 0; before := b; ahead := decl_head u nm ++ ")" :: tail; groups := [] |} =
  Some {| taken := length (decl_head u nm) + 1; before := Some ")"; ahead := tail;
          groups := (2, nm) :: (if u then [(1, $"unsafe ")] else []) |}.
Proof.
  intros Hb Hne Hall Htail. unfold re_fn, decl_head.
  rewrite <- !app_assoc.
  cbn [run taken before ahead groups].
  assert (Hbol : forall n s g, at_bol fn_flags {| taken := n; before := b; ahead := s; groups := g |} = true).
  { intros. unfold at_bol. cbn [before]. destruct Hb as [-> | ->]; reflexivity. }
  rewrite Hbol. rewrite eat_app.
  change ($"(" ++ ")" :: tail) with ("(" :: ")" :: tail).
  pose proof (run_args_none tail) as H. cbn [run] in H.
  destruct u.
  - rewrite eat_app. cbn [taken before ahead groups]. rewrite eat_app.
    erewrite run_name; [reflexivity | assumption | assumption |].
    cbn [run taken before ahead groups].
    change ("(" :: ")" :: tail) with ($"(" ++ ")" :: tail) at 1. rewrite eat_app.
    rewrite H by assumption.
    f_equal. f_equal. rewrite !length_app. simpl. lia.
  - cbn [app]. rewrite eat_other by (simpl; discriminate).
    cbn [taken before ahead groups]. rewrite eat_app.
    erewrite run_name; [reflexivity | assumption | assumption |].
    cbn [run taken before ahead groups].
    change ("(" :: ")" :: tail) with ($"(" ++ ")" :: tail) at 1. rewrite eat_app.
    rewrite H by assumption.
    f_equal. f_equal. rewrite !length_app. simpl. lia.
Qed.

Lemma exec_decl_noargs (b : option ascii) (u : bool) (nm tail : str) :
  b = None \/ b = Some "010" ->
  nm <> [] -> forallb name_char nm = true -> opens_body tail ->
  exec fn_flags re_fn b (decl_head u nm ++ ")" :: tail) =
  Some {| span := length (decl_head u nm) + 1;
          captured := (2, nm) :: (if u then [(1, $"unsafe ")] else []) |}.
Proof.
  intros. unfold exec. rewrite run_decl_noargs by assumption. reflexivity.
Qed.

(** A name with a character outside the set: no match at this place. *)
Lemma exec_bad_name (b : option ascii) (u : bool) (pre : str) (c : ascii) (rest : str) :
  forallb name_char pre = true -> name_char c = false -> c <> "(" ->
  exec fn_flags re_fn b
    ($"pub " ++ (if u then $"unsafe " else []) ++ extern_c_fn ++ pre ++ c :: rest) = None.
Proof.
  intros Hpre Hc Hparen. unfold exec, re_fn.
  cbn [run taken before ahead groups].
  destruct (at_bol fn_flags _); [|reflexivity].
  rewrite eat_app.
  assert (Hk : forall g st,
    match ahead st with "(" :: _ => False | _ => True end ->
    match eat $"(" (taken st) (before st) (ahead st) with
    | Some (n, b0, s') =>
        run fn_flags re_args
          (fun st0 => match eat $")" (taken st0) (before st0) (ahead st0) with
                      | Some (n0, b1, s'0) =>
                          run fn_flags re_returns Some
                            {| taken := n0; before := b1; ahead := s'0; groups := groups st0 |}
                      | None => None
                      end)
          {| taken := n; before := b0; ahead := s'; groups := g st |}
    | None => None
    end = None).
  { intros g st Hst. rewrite eat_other; [reflexivity|]. simpl.
    destruct (ahead st) as [|d s]; [exact I|]. intros ->. apply Hst. }
  destruct u.
  - rewrite eat_app. cbn [taken before ahead groups]. rewrite eat_app.
    rewrite run_name_None; try assumption.
    + rewrite eat_other by (simpl; discriminate). reflexivity.
    + intros st Hst. cbn [taken before ahead groups]. apply (Hk (fun st => _) st Hst).
  - cbn [app]. rewrite eat_other by (simpl; discriminate).
    cbn [taken before ahead groups]. rewrite eat_app.
    rewrite run_name_None; try assumption. reflexivity.
    intros st Hst. cbn [taken before ahead groups]. apply (Hk (fun st => _) st Hst).
Qed.

(** No declaration starts at white space, at a brace, or at the end. *)
Lemma exec_opens_body (b : option ascii) (tail : str) :
  opens_body tail -> exec fn_flags re_fn b tail = None.
Proof.
  intros H. unfold exec, re_fn. cbn [run taken before ahead groups].
  destruct (at_bol fn_flags _); [|reflexivity].
  rewrite eat_other; [reflexivity|]. simpl. destruct tail as [|c tail]; [exact I|].
  destruct (opens_body_head _ _ H) as [Hc| ->]; [|discriminate].
  intros ->. discriminate.
Qed.

Section ScanSteps.

Variable fl : flags.
Variable r : regex.

(** Passing over the characters of the last match. *)
Lemma scan_skip (pre s : str) (pos : nat) (b : option ascii) :
  scan fl r pos (length pre) b (pre ++ s) =
  scan fl r (pos + length pre) 0 (before_after b pre) s.
Proof.
  revert pos b. induction pre as [|c pre IH]; intros pos b; simpl.
  - rewrite Nat.add_0_r. reflexivity.
  - rewrite IH. f_equal. lia.
Qed.

(** The matches do not depend on the offset the scan counts from. *)
Lemma scan_offset (s : str) (pos pos' skip : nat) (b : option ascii) :
  map snd (scan fl r pos skip b s) = map snd (scan fl r pos' skip b s).
Proof.
  revert pos pos' skip b. induction s as [|c s IH]; intros pos pos' skip b.
  - destruct skip; simpl; [|reflexivity]. destruct (exec fl r b []); reflexivity.
  - destruct skip as [|k]; simpl.
    + destruct (exec fl r b (c :: s)); simpl; [f_equal|]; apply IH.
    + apply IH.
Qed.

(** Nor on the character before the text, when the first try fails
    either way. *)
Lemma scan_before (s : str) (pos pos' : nat) (b b' : option ascii) :
  exec fl r b s = None -> exec fl r b' s = None ->
  map snd (scan fl r pos 0 b s) = map snd (scan fl r pos' 0 b' s).
Proof.
  intros H H'. destruct s as [|c s]; simpl; rewrite H, H'; [reflexivity|].
  apply scan_offset.
Qed.

End ScanSteps.

Lemma before_after_app (b : option ascii) (s : str) (c : ascii) :
  before_after b (s ++ [c]) = Some c.
Proof. unfold before_after. rewrite fold_left_app. reflexivity. Qed.

(** No match starts in quiet text. *)
Lemma scan_quiet (pre s : str) (pos : nat) (b : option ascii) :
  quiet (at_bol fn_flags {| taken := 0; before := b; ahead := []; groups := [] |}) pre = true ->
  scan fn_flags re_fn pos 0 b (pre ++ s) =
  scan fn_flags re_fn (pos + length pre) 0 (before_after b pre) s.
Proof.
  revert pos b. induction pre as [|c pre IH]; intros pos b Hq.
  - simpl. rewrite Nat.add_0_r. reflexivity.
  - simpl in Hq. apply andb_prop in Hq. destruct Hq as [Hc Hq].
    cbn [app scan].
    assert (E : exec fn_flags re_fn b (c :: pre ++ s) = None).
    { unfold exec, re_fn. cbn [run taken before ahead groups].
      unfold at_bol in Hc |- *. cbn [before] in Hc |- *.
      destruct (match b with None => true | Some c0 => MULTILINE fn_flags && Ascii.eqb c0 "010" end);
        [|reflexivity].
      rewrite eat_other; [reflexivity|]. simpl. simpl in Hc.
      apply negb_true_iff, Ascii.eqb_neq in Hc. exact Hc. }
    rewrite E. rewrite IH.
    + cbn [length before_after fold_left]. f_equal. lia.
    + unfold at_bol. cbn [before MULTILINE fn_flags andb]. exact Hq.
Qed.

Lemma ends_line_before (pre : str) :
  ends_line pre -> before_after None pre = None \/ before_after None pre = Some "010".
Proof.
  intros [->|[l ->]]; [left; reflexivity | right; apply before_after_app].
Qed.

(** A match that takes [full]: the scan goes on behind it. *)
Lemma scan_match (fl : flags) (r : regex) (full tail : str) (pos : nat)
    (b : option ascii) (m : mtch) :
  full <> [] -> exec fl r b (full ++ tail) = Some m -> span m = length full ->
  scan fl r pos 0 b (full ++ tail) =
  (pos, m) :: scan fl r (pos + length full) 0 (before_after b full) tail.
Proof.
  intros Hne E Hspan. destruct full as [|c full]; [congruence|].
  cbn [app scan] in *. rewrite E. f_equal. rewrite Hspan. cbn [length pred].
  rewrite scan_skip. cbn [before_after fold_left]. f_equal. lia.
Qed.

Lemma findall_noargs (pre : str) (u : bool) (nm tail : str) :
  quiet true pre = true -> ends_line pre ->
  nm <> [] -> forallb name_char nm = true -> opens_body tail ->
  findall fn_flags re_fn (pre ++ decl_head u nm ++ ")" :: tail) =
  {| span := length (decl_head u nm) + 1;
     captured := (2, nm) :: (if u then [(1, $"unsafe ")] else []) |}
  :: findall fn_flags re_fn tail.
Proof.
  intros Hq Hpre Hne Hall Htail. unfold findall, finditer.
  rewrite scan_quiet by exact Hq.
  pose proof (exec_decl_noargs _ u nm tail (ends_line_before pre Hpre) Hne Hall Htail) as E.
  remember (before_after None pre) as b eqn:Eb. clear Eb.
  change (")" :: tail) with ([")"] ++ tail) in *. rewrite app_assoc in *.
  rewrite (scan_match _ _ _ _ _ _ _ (fun H => app_cons_not_nil _ _ _ (eq_sym H)) E);
    [|cbn [span]; rewrite length_app; reflexivity].
  cbn [map snd]. f_equal.
  apply scan_before; apply exec_opens_body; assumption.
Qed.

(** ** Two declarations: example_fn and MyFn *)

Lemma name_char_ascii (c : ascii) : name_char c = true -> is_ascii c = true.
Proof.
  destruct c as [[] [] [] [] [] [] [] []]; vm_compute; congruence.
Qed.

(** The line of a match without argument text and without return
    type. *)
Lemma render_fn_noargs (tm : list (str * str)) (n : nat) (nm : str) (g : list (nat * str)) :
  forallb name_char nm = true ->
  group_of g 3 = [] -> group_of g 5 = [] -> group_of g 2 = nm ->
  render_fn tm {| span := n; captured := g |} =
  Return ($"void " ++ nm ++ $"(void);" ++ ["010"]).
Proof.
  intros Hall H3 H5 H2. unfold render_fn, fn_args, fn_ret, fn_name, group.
  cbn [captured]. rewrite H3, H5, H2.
  cbn [pieces split filter str_eqb for_each bind strip lstrip rstrip drop_while rev app
       render_return join].
  change (str_eqb [] []) with true. cbn [negb filter for_each bind].
  unfold format_line.
  assert (Ha : forallb is_ascii ($"void" ++ nm ++ $"void") = true).
  { rewrite !forallb_app. rewrite (proj2 (forallb_forall is_ascii nm)).
    - reflexivity.
    - intros c Hc. apply name_char_ascii. rewrite forallb_forall in Hall. apply Hall, Hc. }
  change (render_return tm []) with (@Return str $"void"). cbn [bind join].
  rewrite Ha. reflexivity.
Qed.

Lemma gen_headers_noargs (tm : list (str * str)) (pre : str) (u : bool) (nm tail : str) :
  quiet true pre = true -> ends_line pre ->
  nm <> [] -> forallb name_char nm = true -> opens_body tail ->
  gen_headers tm (pre ++ decl_head u nm ++ ")" :: tail) =
  (rest <- gen_headers tm tail ;;
   Return ($"void " ++ nm ++ $"(void);" ++ ["010"] ++ rest)).
Proof.
  intros Hq Hpre Hne Hall Htail. unfold gen_headers.
  rewrite findall_noargs by assumption. cbn [for_each].
  rewrite (render_fn_noargs tm _ nm); try assumption; try (destruct u; reflexivity).
  cbn [bind]. destruct (for_each (render_fn tm) (findall fn_flags re_fn tail)); cbn [bind concat].
  - rewrite <- !app_assoc. reflexivity.
  - reflexivity.
Qed.

(** C5: a declaration of [example_fn] with an empty parameter list
    and no return type, [unsafe] or not, at the start of a line after
    text in which no declaration starts and before white space and
    the body, writes exactly the line [void example_fn(void);]: the
    empty parameter list is rendered as [void] and so is the missing
    return type.  The lines of the text after it follow. *)
Theorem example_fn_line (tm : list (str * str)) (pre : str) (is_unsafe : bool) (tail : str) :
  quiet true pre = true -> ends_line pre -> opens_body tail ->
  gen_headers tm (pre ++ decl_head is_unsafe $"example_fn" ++ $")" ++ tail) =
  (rest <- gen_headers tm tail ;;
   Return ($"void example_fn(void);" ++ ["010"] ++ rest)).
Proof.
  intros Hq Hpre Htail.
  apply (gen_headers_noargs tm pre is_unsafe $"example_fn" tail); try assumption.
  - discriminate.
  - reflexivity.
Qed.

Lemma example_fn_line_witness :
  gen_headers type_map
    ($"#[no_mangle]" ++ ["010"] ++ decl_head false $"example_fn" ++ $")" ++
     $" {" ++ ["010"] ++ $"}" ++ ["010"]) =
  Return ($"void example_fn(void);" ++ ["010"]).
Proof.
  change ($"#[no_mangle]" ++ ["010"] ++ decl_head false $"example_fn" ++ $")" ++
          $" {" ++ ["010"] ++ $"}" ++ ["010"])
    with (($"#[no_mangle]" ++ ["010"]) ++ decl_head false $"example_fn" ++ $")" ++
          ($" {" ++ ["010"] ++ $"}" ++ ["010"])).
  rewrite (example_fn_line type_map ($"#[no_mangle]" ++ ["010"]) false
             ($" {" ++ ["010"] ++ $"}" ++ ["010"])).
  - reflexivity.
  - reflexivity.
  - right. exists $"#[no_mangle]". reflexivity.
  - reflexivity.
Defined.

Lemma name_char_spec (c : ascii) :
  name_char c =
  Ascii.eqb c "A" || Ascii.eqb c "Z" || Ascii.eqb c "_" || lower c || digit c.
Proof.
  destruct c as [[] [] [] [] [] [] [] []]; reflexivity.
Qed.

Lemma upper_not_name (c : ascii) :
  upper c = true -> c <> "A" -> c <> "Z" -> name_char c = false /\ c <> "(".
Proof.
  destruct c as [[] [] [] [] [] [] [] []]; vm_compute; intros H HA HZ;
    try discriminate; try (split; [reflexivity | discriminate]);
    exfalso; (apply HA; reflexivity) || (apply HZ; reflexivity).
Qed.

(** C10: the name pattern takes [A], [Z], the underscore, the lower
    case letters and the digits, and no other character; so no match
    starts at a declaration whose name has another upper case letter
    before its parenthesis.  The declaration of [MyFn] gives no
    descriptor and no line, while the same declaration of [my_fn]
    gives one. *)
Theorem uppercase_name_not_extracted :
  (forall c : ascii, name_char c = true <->
             c = "A" \/ c = "Z" \/ c = "_" \/ lower c = true \/ digit c = true) /\
  (forall (buf : str) (p : nat) (is_unsafe : bool) (pre : str) (c : ascii) (rest : str),
     skipn p buf =
       $"pub " ++ (if is_unsafe then $"unsafe " else []) ++ extern_c_fn ++ pre ++ c :: rest ->
     forallb name_char pre = true ->
     upper c = true -> c <> "A" -> c <> "Z" ->
     forall fn, ~ In (p, fn) (finditer fn_flags re_fn buf)) /\
  (let buf := decl_head false $"MyFn" ++ $") {}" in
   extract buf = Return [] /\ gen_headers type_map buf = Return []) /\
  (let buf := decl_head false $"my_fn" ++ $") {}" in
   exists d, extract buf = Return [d] /\ name d = $"my_fn").
Proof.
  split; [|split; [|split]].
  - intros c. rewrite name_char_spec, !orb_true_iff, !Ascii.eqb_eq. tauto.
  - intros buf p u pre c rest Hs Hpre Hup HA HZ fn Hin.
    apply finditer_declared in Hin. destruct Hin as [_ Hex].
    unfold exec_at in Hex. rewrite Hs in Hex.
    destruct (upper_not_name c Hup HA HZ) as [Hc Hparen].
    rewrite exec_bad_name in Hex by assumption. discriminate.
  - cbv zeta. split; vm_compute; reflexivity.
  - cbv zeta. eexists. split; vm_compute; reflexivity.
Qed.

(** ** Three texts run through the generator *)

(** A pointer to a table type as parameter and an integer as return
    type. *)
Example one_pointer_parameter :
  gen_headers type_map
    ($"#[no_mangle]" ++ ["010"] ++
     decl_head false $"rs_dns_tx_count" ++ $"state: &mut DNSState) -> u64 {" ++ ["010"] ++
     $"    state.tx_id" ++ ["010"] ++ $"}" ++ ["010"]) =
  Return ($"uint64_t rs_dns_tx_count(RSDNSState * state);" ++ ["010"]).
Proof. vm_compute. reflexivity. Qed.

(** Two declarations, the second over several lines: two lines in
    the order of the text. *)
Example two_declarations :
  gen_headers type_map
    (decl_head false $"rs_first" ++ $") -> bool {" ++ ["010"] ++ $"}" ++ ["010"] ++
     decl_head true $"rs_second" ++ ["010"] ++
     $"    flow: *const Flow," ++ ["010"] ++
     $"    _: *mut *const u8)" ++ ["010"] ++ $"{" ++ ["010"] ++ $"}" ++ ["010"]) =
  Return ($"bool rs_first(void);" ++ ["010"] ++
          $"void rs_second(const Flow * flow, uint8_t **);" ++ ["010"]).
Proof. vm_compute. reflexivity. Qed.

(** A type the table does not have stops the generation: nothing is
    written for the text. *)
Example unknown_type_stops :
  gen_headers type_map
    (decl_head false $"rs_first" ++ $") {" ++ ["010"] ++ $"}" ++ ["010"] ++
     decl_head false $"rs_second" ++ $"n: *mut usize) {" ++ ["010"] ++ $"}" ++ ["010"]) =
  Raise (UnknownType $"usize").
Proof. vm_compute. reflexivity. Qed.

(** ** split, join, replace *)

Lemma split_not_nil (sep : ascii) (s : str) : split sep s <> [].
Proof.
  destruct s as [|c s]; simpl; [discriminate|].
  destruct (Ascii.eqb c sep); [discriminate|].
  destruct (split sep s); discriminate.
Qed.

(** One more piece than there are separators. *)
Lemma split_length (sep : ascii) (s : str) :
  length (split sep s) = S (count_occ ascii_dec s sep).
Proof.
  induction s as [|c s IH]; simpl; [reflexivity|].
  destruct (Ascii.eqb c sep) eqn:E.
  - apply Ascii.eqb_eq in E. subst. simpl. rewrite IH.
    destruct (ascii_dec sep sep); [reflexivity | congruence].
  - apply Ascii.eqb_neq in E.
    destruct (ascii_dec c sep); [congruence|].
    destruct (split sep s) as [|p ps] eqn:Es; [exfalso; eapply split_not_nil; eassumption|].
    simpl in *. exact IH.
Qed.

(** No piece has the separator. *)
Lemma split_pieces (sep : ascii) (s : str) (p : str) :
  In p (split sep s) -> ~ In sep p.
Proof.
  revert p. induction s as [|c s IH]; simpl; intros p.
  - intros [<-|[]]. intros [].
  - destruct (Ascii.eqb c sep) eqn:E.
    + intros [<-|H]; [intros [] | apply IH, H].
    + apply Ascii.eqb_neq in E.
      destruct (split sep s) as [|q qs] eqn:Es; [exfalso; eapply split_not_nil; eassumption|].
      intros [<-|H].
      * intros [H|H]; [congruence|]. eapply IH; [left; reflexivity | exact H].
      * apply IH. right. exact H.
Qed.

Lemma split_none (sep : ascii) (s : str) : ~ In sep s -> split sep s = [s].
Proof.
  induction s as [|c s IH]; simpl; [reflexivity|]. intros H.
  destruct (Ascii.eqb c sep) eqn:E.
  - apply Ascii.eqb_eq in E. exfalso. apply H. left. assumption.
  - rewrite IH; [reflexivity|]. intros H'. apply H. right. assumption.
Qed.

Lemma split_cons (sep : ascii) (a b : str) :
  ~ In sep a -> split sep (a ++ sep :: b) = a :: split sep b.
Proof.
  induction a as [|c a IH]; simpl; intros H.
  - rewrite Ascii.eqb_refl. reflexivity.
  - destruct (Ascii.eqb c sep) eqn:E.
    + apply Ascii.eqb_eq in E. exfalso. apply H. left. assumption.
    + rewrite IH; [reflexivity|]. intros H'. apply H. right. assumption.
Qed.

(** Splitting what was joined gives the pieces back. *)
Lemma split_join (sep : ascii) (l : list str) :
  l <> [] -> (forall p, In p l -> ~ In sep p) ->
  split sep (join [sep] l) = l.
Proof.
  induction l as [|x l IH]; [congruence|]. intros _ H.
  destruct l as [|y l].
  - simpl. apply split_none, H. left. reflexivity.
  - change (join [sep] (x :: y :: l)) with (x ++ sep :: join [sep] (y :: l)).
    rewrite split_cons by (apply H; left; reflexivity).
    rewrite IH; [reflexivity | discriminate |].
    intros p Hp. apply H. right. exact Hp.
Qed.

(** Nothing is replaced in a text where [old] does not occur. *)
Lemma replace_absent (old new s : str) :
  occurs old s = false -> replace old new s = s.
Proof.
  unfold replace. induction s as [|c s IH]; simpl; [reflexivity|].
  intros H. apply orb_false_elim in H. destruct H as [H1 H2].
  simpl in H1. rewrite H1. rewrite IH by exact H2. reflexivity.
Qed.

(** A replacement brings no character that is not in the text or in
    [new]. *)
Lemma replace_from_chars (old new : str) (c : ascii) :
  forall s skip, In c (replace_from old new skip s) -> In c s \/ In c new.
Proof.
  induction s as [|d s IH]; intros skip; simpl; [tauto|].
  destruct skip as [|k].
  - destruct (starts_with old (d :: s)).
    + intros H. apply in_app_or in H. destruct H as [H|H]; [tauto|].
      apply IH in H. tauto.
    + intros [H|H]; [tauto|]. apply IH in H. tauto.
  - intros H. apply IH in H. tauto.
Qed.

Lemma rfind_none (c : ascii) (s : str) : rfind c s = None <-> ~ In c s.
Proof.
  induction s as [|d s IH]; simpl; [tauto|].
  destruct (rfind c s) as [i|].
  - split; [discriminate|]. intros H. exfalso.
    assert (Hs : ~ In c s) by tauto. apply IH in Hs. discriminate.
  - destruct (Ascii.eqb d c) eqn:E.
    + apply Ascii.eqb_eq in E. split; [discriminate | tauto].
    + apply Ascii.eqb_neq in E. split; [|reflexivity].
      intros _ [H|H]; [congruence|]. apply IH in H; [assumption | reflexivity].
Qed.

(** The last offset of [c] in a text that ends with [c] and a text
    without [c]. *)
Lemma rfind_last (c : ascii) (a b : str) :
  ~ In c b -> rfind c (a ++ c :: b) = Some (length a).
Proof.
  intros Hb. induction a as [|d a IH]; simpl.
  - apply rfind_none in Hb. rewrite Hb, Ascii.eqb_refl. reflexivity.
  - rewrite IH. reflexivity.
Qed.

(** A name with an extension: a stem that is not made of dots, a dot
    and an extension without dot. *)
Lemma splitext_stem (stem ext : str) :
  ~ In "/" stem -> ~ In "/" ext -> ~ In "." ext ->
  existsb (fun c => negb (Ascii.eqb c ".")) stem = true ->
  splitext (stem ++ "." :: ext) = (stem, "." :: ext).
Proof.
  intros Hs He Hd Hstem. unfold splitext.
  rewrite rfind_last by assumption.
  assert (Hsl : rfind "/" (stem ++ "." :: ext) = None).
  { apply rfind_none. intros H. apply in_app_or in H.
    destruct H as [H|[H|H]]; [tauto | discriminate | tauto]. }
  rewrite Hsl. cbn [Nat.leb skipn andb]. rewrite Nat.sub_0_r.
  rewrite firstn_app, firstn_all, Nat.sub_diag. cbn [firstn]. rewrite app_nil_r, Hstem.
  rewrite skipn_app, skipn_all, Nat.sub_diag. reflexivity.
Qed.

Lemma pop_last (l : list str) (x : str) : pop (l ++ [x]) = Some (l, x).
Proof.
  unfold pop. rewrite rev_app_distr. simpl. rewrite rev_involutive. reflexivity.
Qed.

Lemma pop_None (l : list str) : pop l = None <-> l = [].
Proof.
  unfold pop. split.
  - destruct (rev l) eqn:E; [|discriminate]. intros _.
    apply (f_equal (@rev str)) in E. rewrite rev_involutive in E. exact E.
  - intros ->. reflexivity.
Qed.

(** ** make_output_filename *)

(** X1: [make_output_filename] ends with the [IndexError] of
    [parts.pop()] exactly when the path has fewer than two slashes:
    nothing is left of the components once the first two are dropped.
    Any other path gives a name. *)
Theorem make_output_filename_IndexError (filename : str) :
  make_output_filename filename = None <-> count_occ ascii_dec filename "/" < 2.
Proof.
  unfold make_output_filename.
  destruct (pop (skipn 2 (split "/" filename))) as [[parts lastpart]|] eqn:E.
  - split; [discriminate|]. intros H. exfalso.
    assert (Hl : length (skipn 2 (split "/" filename)) = 0).
    { rewrite length_skipn, split_length. lia. }
    apply length_zero_iff_nil in Hl. rewrite Hl in E. discriminate.
  - split; [|reflexivity]. intros _. apply pop_None in E.
    apply (f_equal (@length str)) in E. rewrite length_skipn, split_length in E.
    simpl in E. lia.
Qed.

(** How the name is built from a path of at least three components. *)
Lemma make_output_filename_join (a b : str) (dirs : list str) (file : str) :
  (forall p, In p (a :: b :: dirs ++ [file]) -> ~ In "/" p) ->
  make_output_filename (join $"/" (a :: b :: dirs ++ [file])) =
  Some (replace $"--" $"-"
          ($"./gen/c-headers/rust-" ++ join $"-" dirs ++ $"-" ++ fst (splitext file) ++
           $"-gen.h")).
Proof.
  intros H. unfold make_output_filename.
  change ($"/") with (["/"]). rewrite split_join by (discriminate || exact H).
  cbn [skipn]. rewrite pop_last. reflexivity.
Qed.

(** X2: for a path of two leading components, directories and a
    file name [stem.ext] whose extension has no further dot, the
    output name is [./gen/c-headers/rust-], the directories joined
    with dashes, a dash, the stem and [-gen.h], after every [--] has
    become [-]: the first two components and the extension do not
    appear in it. *)
Theorem make_output_filename_parts (a b : str) (dirs : list str) (stem ext : str) :
  (forall p, In p (a :: b :: dirs) -> ~ In "/" p) ->
  ~ In "/" stem -> ~ In "/" ext -> ~ In "." ext ->
  existsb (fun c => negb (Ascii.eqb c ".")) stem = true ->
  make_output_filename (join $"/" (a :: b :: dirs ++ [stem ++ "." :: ext])) =
  Some (replace $"--" $"-"
          ($"./gen/c-headers/rust-" ++ join $"-" dirs ++ $"-" ++ stem ++ $"-gen.h")).
Proof.
  intros Hd Hs He Hdot Hstem.
  rewrite make_output_filename_join.
  - rewrite splitext_stem by assumption. reflexivity.
  - intros p [<-|[<-|Hp]]; try (apply Hd; simpl; tauto).
    apply in_app_or in Hp. destruct Hp as [Hp|[<-|[]]].
    + apply Hd. simpl. tauto.
    + intros H. apply in_app_or in H. destruct H as [H|[H|H]]; [tauto | discriminate | tauto].
Qed.

Lemma make_output_filename_parts_witness :
  make_output_filename $"./src/dns/log/dns-log.rs" =
  Some $"./gen/c-headers/rust-dns-log-dns-log-gen.h".
Proof.
  change ($"./src/dns/log/dns-log.rs")
    with (join $"/" ($"." :: $"src" :: [$"dns"; $"log"] ++ [$"dns-log" ++ "." :: $"rs"])).
  rewrite make_output_filename_parts.
  - reflexivity.
  - intros p H. simpl in H.
    repeat (destruct H as [<-|H]; [vm_compute; intuition discriminate|]). contradiction.
  - vm_compute; intuition discriminate.
  - vm_compute; intuition discriminate.
  - vm_compute; intuition discriminate.
  - reflexivity.
Defined.

Lemma plain_chars (s : str) (c : ascii) :
  plain s -> In c s -> c <> "/" /\ c <> "-" /\ c <> ".".
Proof.
  intros [_ H] Hc. rewrite forallb_forall in H. specialize (H c Hc).
  apply negb_true_iff in H. apply orb_false_elim in H. destruct H as [H H3].
  apply orb_false_elim in H. destruct H as [H1 H2].
  apply Ascii.eqb_neq in H1, H2, H3. tauto.
Qed.

Lemma plain_head (s : str) :
  plain s -> exists c s', s = c :: s' /\ c <> "-".
Proof.
  intros H. destruct s as [|c s']; [destruct H; congruence|].
  exists c, s'. split; [reflexivity|]. apply (plain_chars _ c H). left. reflexivity.
Qed.

(** No double dash in a plain component, a dash and a text without
    double dash that does not start with a dash. *)
Lemma occurs_dd_plain (s t : str) :
  plain s -> match t with d :: _ => d <> "-" | [] => True end ->
  occurs $"--" t = false -> occurs $"--" (s ++ "-" :: t) = false.
Proof.
  intros Hs Hd Ht.
  assert (Hall : forall c, In c s -> c <> "-") by (intros c Hc; apply (plain_chars s c Hs Hc)).
  clear Hs. induction s as [|c u IH].
  - cbn [app occurs starts_with list_ascii_of_string].
    rewrite Ascii.eqb_refl. cbn [andb].
    destruct t as [|d t]; [reflexivity|].
    apply Ascii.eqb_neq in Hd. rewrite Hd. cbn [andb orb]. exact Ht.
  - cbn [app occurs starts_with list_ascii_of_string].
    assert (Hc : Ascii.eqb c "-" = false).
    { apply Ascii.eqb_neq. apply Hall. left. reflexivity. }
    rewrite Hc. cbn [andb orb]. apply IH. intros d Hd'. apply Hall. right. exact Hd'.
Qed.

Lemma join_snoc (sep : str) (l : list str) (x : str) :
  l <> [] -> join sep (l ++ [x]) = join sep l ++ sep ++ x.
Proof.
  induction l as [|y l IH]; [congruence|]. intros _.
  destruct l as [|z l].
  - reflexivity.
  - change (join sep ((y :: z :: l) ++ [x])) with (y ++ sep ++ join sep ((z :: l) ++ [x])).
    rewrite IH by discriminate.
    change (join sep (y :: z :: l)) with (y ++ sep ++ join sep (z :: l)).
    rewrite <- !app_assoc. reflexivity.
Qed.

(** Plain components joined by dashes, before [-gen.h]: no double
    dash, and no dash at the start. *)
Lemma occurs_dd_join (l : list str) :
  l <> [] -> Forall plain l ->
  occurs $"--" (join $"-" l ++ $"-gen.h") = false /\
  exists c u, join $"-" l ++ $"-gen.h" = c :: u /\ c <> "-".
Proof.
  induction l as [|x l IH]; [congruence|]. intros _ H.
  inversion H as [|? ? Hx Hl]; subst.
  destruct l as [|y l].
  - split.
    + change (join $"-" [x] ++ $"-gen.h") with (x ++ "-" :: $"gen.h").
      apply occurs_dd_plain; [assumption | discriminate | reflexivity].
    + destruct (plain_head x Hx) as (c & u & -> & Hc). eexists c, _. split; [reflexivity | exact Hc].
  - destruct (IH ltac:(discriminate) Hl) as (Hocc & c & u & E & Hc). split.
    + change (join $"-" (x :: y :: l) ++ $"-gen.h")
        with ((x ++ $"-" ++ join $"-" (y :: l)) ++ $"-gen.h").
      rewrite <- !app_assoc. change ($"-" ++ ?z) with ("-" :: z).
      apply occurs_dd_plain; [assumption | rewrite E; exact Hc | exact Hocc].
    + destruct (plain_head x Hx) as (c' & u' & -> & Hc'). eexists c', _.
      split; [reflexivity | exact Hc'].
Qed.

(** Nothing is replaced in a prefix where no double dash starts. *)
Lemma replace_dd_app (a b : str) :
  occurs $"--" (a ++ firstn 1 b) = false ->
  replace $"--" $"-" (a ++ b) = a ++ replace $"--" $"-" b.
Proof.
  unfold replace. induction a as [|c a IH]; [reflexivity|].
  cbn [app occurs]. intros H. apply orb_false_elim in H. destruct H as [H1 H2].
  cbn [replace_from].
  assert (E : starts_with $"--" (c :: a ++ b) = starts_with $"--" (c :: a ++ firstn 1 b)).
  { cbn [starts_with list_ascii_of_string]. f_equal.
    destruct a as [|d a]; [destruct b|]; reflexivity. }
  rewrite E, H1. rewrite IH by exact H2. reflexivity.
Qed.

Lemma replace_dd_dd (s : str) :
  replace $"--" $"-" ("-" :: "-" :: s) = "-" :: replace $"--" $"-" s.
Proof. destruct s; reflexivity. Qed.

Lemma join_slash_src (l : list str) :
  l <> [] -> $"./src/" ++ join $"/" l = join $"/" ($"." :: $"src" :: l).
Proof.
  destruct l as [|x l]; [congruence|]. reflexivity.
Qed.

(** The output name of a source file whose path under [./src] is
    made of plain components. *)
Lemma output_of_plain (dirs : list str) (stem : str) :
  Forall plain (dirs ++ [stem]) ->
  make_output_filename ($"./src/" ++ join $"/" (dirs ++ [stem ++ $".rs"])) =
  Some ($"./gen/c-headers/rust-" ++ join $"-" (dirs ++ [stem]) ++ $"-gen.h").
Proof.
  intros Hall.
  assert (Hstem : plain stem).
  { rewrite Forall_forall in Hall. apply Hall, in_or_app. right. left. reflexivity. }
  assert (Hdirs : Forall plain dirs) by (apply Forall_app in Hall; apply Hall).
  rewrite join_slash_src by (intros H; eapply app_cons_not_nil; symmetry; exact H).
  rewrite make_output_filename_join.
  - change (stem ++ $".rs") with (stem ++ "." :: $"rs").
    rewrite splitext_stem.
    + cbn [fst]. f_equal.
      destruct (occurs_dd_join (dirs ++ [stem])) as (Hocc & c & u & E & Hc);
        [intros H; eapply app_cons_not_nil; symmetry; exact H | exact Hall |].
      destruct dirs as [|d dirs].
      * cbn [app join] in *.
        change ($"./gen/c-headers/rust-" ++ $"-" ++ stem ++ $"-gen.h")
          with ($"./gen/c-headers/rust" ++ "-" :: "-" :: stem ++ $"-gen.h").
        rewrite replace_dd_app by reflexivity.
        rewrite replace_dd_dd, replace_absent by exact Hocc. reflexivity.
      * replace (join $"-" (d :: dirs) ++ $"-" ++ stem ++ $"-gen.h")
          with (join $"-" ((d :: dirs) ++ [stem]) ++ $"-gen.h")
          by (rewrite join_snoc by discriminate; rewrite <- !app_assoc; reflexivity).
        rewrite replace_dd_app.
        -- rewrite replace_absent by exact Hocc. reflexivity.
        -- rewrite E. cbn [firstn]. cbn. apply Ascii.eqb_neq in Hc. rewrite Hc. reflexivity.
    + intros H. apply (plain_chars _ _ Hstem) in H. tauto.
    + vm_compute. intuition discriminate.
    + vm_compute. intuition discriminate.
    + destruct (plain_head stem Hstem) as (c & u & -> & _).
      cbn [existsb]. assert (Hc : c <> ".") by (apply (plain_chars _ c Hstem); left; reflexivity).
      apply Ascii.eqb_neq in Hc. rewrite Hc. reflexivity.
  - intros p [<-|[<-|Hp]]; [vm_compute; intuition discriminate | vm_compute; intuition discriminate|].
    apply in_app_or in Hp. destruct Hp as [Hp|[<-|[]]].
    + rewrite Forall_forall in Hdirs. intros H. apply (plain_chars _ _ (Hdirs _ Hp)) in H. tauto.
    + intros H. apply in_app_or in H. destruct H as [H|H].
      * apply (plain_chars _ _ Hstem) in H. tauto.
      * vm_compute in H. intuition discriminate.
Qed.

(** X3: a Rust file under [./src] whose directories and stem have
    no dash and no dot gets its header named after them, joined with
    dashes between [rust-] and [-gen.h]; the replacement of [--]
    changes nothing but the doubled dash of a file that lies in
    [./src] itself. *)
Theorem make_output_filename_plain (dirs : list str) (stem : str) :
  Forall plain (dirs ++ [stem]) ->
  make_output_filename ($"./src/" ++ join $"/" (dirs ++ [stem ++ $".rs"])) =
  Some ($"./gen/c-headers/rust-" ++ join $"-" (dirs ++ [stem]) ++ $"-gen.h").
Proof. exact (output_of_plain dirs stem). Qed.

Lemma make_output_filename_plain_witness :
  make_output_filename $"./src/dns/dns.rs" = Some $"./gen/c-headers/rust-dns-dns-gen.h".
Proof.
  apply (make_output_filename_plain [$"dns"] $"dns").
  repeat constructor; try discriminate.
Defined.

Lemma splitext_chars (p : str) (c : ascii) : In c (fst (splitext p)) -> In c p.
Proof.
  unfold splitext. destruct (rfind "." p) as [dot|]; [|exact (fun H => H)].
  match goal with |- context [if ?b then _ else _] => destruct b end; cbn [fst].
  - intros H. rewrite <- (firstn_skipn dot p). apply in_or_app. left. exact H.
  - exact (fun H => H).
Qed.

Lemma join_chars (sep : str) (l : list str) (c : ascii) :
  In c (join sep l) -> In c sep \/ exists p, In p l /\ In c p.
Proof.
  induction l as [|x l IH]; [intros []|].
  destruct l as [|y l].
  - intros H. right. exists x. split; [left; reflexivity | exact H].
  - change (join sep (x :: y :: l)) with (x ++ sep ++ join sep (y :: l)).
    intros H. apply in_app_or in H. destruct H as [H|H].
    + right. exists x. split; [left; reflexivity | exact H].
    + apply in_app_or in H. destruct H as [H|H]; [left; exact H|].
      destruct (IH H) as [H'|(p & Hp & Hc)]; [left; exact H'|].
      right. exists p. split; [right; exact Hp | exact Hc].
Qed.

Lemma In_skipn {A : Type} (n : nat) (l : list A) (x : A) : In x (skipn n l) -> In x l.
Proof.
  intros H. rewrite <- (firstn_skipn n l). apply in_or_app. right. exact H.
Qed.

Lemma pop_In (l parts : list str) (x : str) :
  pop l = Some (parts, x) -> In x l /\ forall p, In p parts -> In p l.
Proof.
  unfold pop. destruct (rev l) as [|y r] eqn:E; [discriminate|]. intros [= <- <-].
  apply (f_equal (@rev str)) in E. rewrite rev_involutive in E. subst l.
  simpl. split.
  - apply in_or_app. right. left. reflexivity.
  - intros p Hp. apply in_or_app. left. exact Hp.
Qed.

(** The prefix of the output name survives the replacement, and no
    slash comes after it. *)
Lemma output_shape (X : str) :
  ~ In "/" X ->
  exists base, replace $"--" $"-" ($"./gen/c-headers/rust-" ++ X) =
               $"./gen/c-headers/rust-" ++ base /\ ~ In "/" base.
Proof.
  intros HX.
  change ($"./gen/c-headers/rust-" ++ X) with ($"./gen/c-headers/rust" ++ "-" :: X).
  rewrite replace_dd_app by (vm_compute; reflexivity).
  unfold replace. cbn [replace_from].
  destruct (starts_with $"--" ("-" :: X)).
  - eexists. split; [reflexivity|]. intros H.
    apply replace_from_chars in H.
    destruct H as [H|H]; [tauto | vm_compute in H; intuition discriminate].
  - eexists. split; [reflexivity|]. intros H.
    apply replace_from_chars in H.
    destruct H as [H|H]; [tauto | vm_compute in H; intuition discriminate].
Qed.

(** X4: every output name lies in the one directory
    [./gen/c-headers], whatever the depth of the source file: it is
    [./gen/c-headers/rust-] followed by text without slash, so the
    directory made by [os.makedirs] is always that one. *)
Theorem make_output_filename_flat (filename out : str) :
  make_output_filename filename = Some out ->
  dirname out = $"./gen/c-headers" /\
  exists base, out = $"./gen/c-headers/rust-" ++ base /\ ~ In "/" base /\
               basename out = $"rust-" ++ base.
Proof.
  unfold make_output_filename.
  destruct (pop (skipn 2 (split "/" filename))) as [[parts lastpart]|] eqn:E; [|discriminate].
  intros Hsome. apply pop_In in E. destruct E as [Hlast Hparts].
  pose (X := join $"-" parts ++ $"-" ++ fst (splitext lastpart) ++ $"-gen.h").
  assert (HX : ~ In "/" X).
  { unfold X. intros H. apply in_app_or in H. destruct H as [H|H].
    - apply join_chars in H. destruct H as [H|(p & Hp & Hc)].
      + vm_compute in H. intuition discriminate.
      + apply Hparts, In_skipn in Hp. exact (split_pieces _ _ _ Hp Hc).
    - apply in_app_or in H. destruct H as [H|H]; [vm_compute in H; intuition discriminate|].
      apply in_app_or in H. destruct H as [H|H]; [|vm_compute in H; intuition discriminate].
      apply splitext_chars in H. apply In_skipn in Hlast. exact (split_pieces _ _ _ Hlast H). }
  destruct (output_shape X HX) as (base & Hout & Hbase).
  assert (E : out = $"./gen/c-headers/rust-" ++ base).
  { injection Hsome as <-. exact Hout. }
  clear Hsome. subst out.
  assert (Hr : rfind "/" ($"./gen/c-headers/rust-" ++ base) = Some 15).
  { change ($"./gen/c-headers/rust-" ++ base) with ($"./gen/c-headers" ++ "/" :: $"rust-" ++ base).
    rewrite rfind_last; [reflexivity|]. intros H. apply in_app_or in H.
    destruct H as [H|H]; [vm_compute in H; intuition discriminate | tauto]. }
  split; [|exists base; repeat split; try assumption].
  - unfold dirname. rewrite Hr. reflexivity.
  - unfold basename. rewrite Hr. reflexivity.
Qed.

Lemma make_output_filename_flat_witness :
  dirname $"./gen/c-headers/rust-nfs-nfs3-gen.h" = $"./gen/c-headers" /\
  exists base, $"./gen/c-headers/rust-nfs-nfs3-gen.h" = $"./gen/c-headers/rust-" ++ base /\
               ~ In "/" base /\
               basename $"./gen/c-headers/rust-nfs-nfs3-gen.h" = $"rust-" ++ base.
Proof.
  apply (make_output_filename_flat $"./src/nfs/nfs3.rs"). reflexivity.
Defined.

Lemma count_occ_ge (a b : str) (c : ascii) :
  count_occ ascii_dec a c <= count_occ ascii_dec (a ++ b) c.
Proof. rewrite count_occ_app. lia. Qed.

(** X5: the paths that [main] builds, a directory under [./src]
    joined with a file name, always have an output name:
    [make_output_filename] does not raise on them. *)
Theorem main_paths_have_output (rest filename : str) :
  ~ In "/" filename ->
  exists out, make_output_filename (path_join ($"./src" ++ rest) filename) = Some out.
Proof.
  intros Hf.
  destruct (make_output_filename (path_join ($"./src" ++ rest) filename)) as [out|] eqn:E;
    [exists out; reflexivity|].
  exfalso. unfold make_output_filename in E.
  destruct (pop (skipn 2 (split "/" (path_join ($"./src" ++ rest) filename))))
    as [[parts lastpart]|] eqn:Ep; [discriminate|].
  clear E. apply pop_None in Ep. apply (f_equal (@length str)) in Ep.
  rewrite length_skipn, split_length in Ep. cbn [length] in Ep.
  assert (E : count_occ ascii_dec (path_join ($"./src" ++ rest) filename) "/" < 2) by lia.
  clear Ep. revert E.
  unfold path_join.
  assert (Hs : starts_with $"/" filename = false).
  { destruct filename as [|c f]; [reflexivity|]. simpl.
    destruct (Ascii.eqb c "/") eqn:Ec; [|reflexivity].
    apply Ascii.eqb_eq in Ec. exfalso. apply Hf. left. exact Ec. }
  rewrite Hs. change (str_eqb ($"./src" ++ rest) []) with false. cbn [orb].
  destruct (ends_with $"/" ($"./src" ++ rest)) eqn:Ee.
  - unfold ends_with in Ee. rewrite rev_app_distr in Ee.
    destruct (rev rest) as [|c r] eqn:Er; [discriminate|].
    cbn in Ee. destruct (Ascii.eqb c "/") eqn:Ec; [|discriminate].
    apply Ascii.eqb_eq in Ec. subst c.
    apply (f_equal (@rev ascii)) in Er. rewrite rev_involutive in Er. simpl in Er. subst rest.
    rewrite !count_occ_app. simpl. lia.
  - rewrite !count_occ_app. simpl. lia.
Qed.

Lemma main_paths_have_output_witness :
  exists out, make_output_filename (path_join ($"./src" ++ $"/dns") $"parser.rs") = Some out.
Proof.
  apply (main_paths_have_output $"/dns" $"parser.rs"). vm_compute. intuition discriminate.
Defined.

(** ** The header file *)

(** The two conversions of the template are filled, whatever the
    values are. *)
Lemma percent_template (prototypes name : str) :
  percent template [($"prototypes", prototypes); ($"name", name)] =
  Some (template_comment ++
        $"#ifndef __" ++ name ++ $"__" ++ nl ++
        $"#define __" ++ name ++ $"__" ++ nl ++
        nl ++
        prototypes ++ nl ++
        $"#endif /* ! __" ++ name ++ $"__ */" ++ nl).
Proof. vm_compute. reflexivity. Qed.

(** X6: the text written to a header is the comment of the
    template, then the include guard with the guard name in its three
    places and the prototypes between [#define] and [#endif]; the
    only exception of the formatting is the decoding of a guard name
    that is not ASCII. *)
Theorem header_text_layout (prototypes output_filename : str) :
  header_text prototypes output_filename =
  if forallb is_ascii (guard_name output_filename)
  then inr (template_comment ++
            $"#ifndef __" ++ guard_name output_filename ++ $"__" ++ nl ++
            $"#define __" ++ guard_name output_filename ++ $"__" ++ nl ++
            nl ++
            prototypes ++ nl ++
            $"#endif /* ! __" ++ guard_name output_filename ++ $"__ */" ++ nl)
  else inl (Raised UnicodeDecodeError).
Proof.
  unfold header_text. cbv zeta. rewrite percent_template. reflexivity.
Qed.

(** Replacing one character by one character maps the text. *)
Lemma replace_char (c d : ascii) (s : str) :
  replace [c] [d] s = map (fun x => if Ascii.eqb x c then d else x) s.
Proof.
  unfold replace. induction s as [|x s IH]; [reflexivity|].
  cbn [replace_from starts_with length pred map].
  destruct (Ascii.eqb x c); cbn [andb app]; rewrite IH; reflexivity.
Qed.

Lemma toupper_facts (x : ascii) :
  lower (toupper x) = false /\
  (toupper x = "-" -> x = "-") /\ (toupper x = "." -> x = ".") /\
  (toupper x = "/" -> x = "/").
Proof.
  destruct x as [[] [] [] [] [] [] [] []]; vm_compute; repeat split; congruence.
Qed.

Lemma basename_no_slash (p : str) : ~ In "/" (basename p).
Proof.
  unfold basename. destruct (rfind "/" p) as [i|] eqn:E; [|apply rfind_none, E].
  revert i E. induction p as [|c p IH]; intros i E; [discriminate|].
  simpl in E. destruct (rfind "/" p) as [j|] eqn:Ej.
  - injection E as <-. cbn [skipn]. apply (IH j eq_refl).
  - destruct (Ascii.eqb c "/"); [|discriminate]. injection E as <-.
    cbn [skipn]. apply rfind_none, Ej.
Qed.

(** X7: the guard name has no dash, no dot, no slash and no lower
    case letter, whatever the output name is. *)
Theorem guard_name_chars (output_filename : str) (c : ascii) :
  In c (guard_name output_filename) ->
  c <> "-" /\ c <> "." /\ c <> "/" /\ lower c = false.
Proof.
  unfold guard_name, str_upper. change ($".") with (["."]). change ($"-") with (["-"]).
  change ($"_") with (["_"]). rewrite !replace_char, !map_map.
  intros H. apply in_map_iff in H. destruct H as (x & <- & Hx).
  pose proof (basename_no_slash output_filename) as Hs.
  assert (Hx' : x <> "/") by (intros ->; tauto). clear Hs Hx.
  destruct (Ascii.eqb x "-") eqn:E1.
  - vm_compute. repeat split; congruence.
  - apply Ascii.eqb_neq in E1.
    destruct (Ascii.eqb x ".") eqn:E2.
    + vm_compute. repeat split; congruence.
    + apply Ascii.eqb_neq in E2.
      destruct (toupper_facts x) as (H1 & H2 & H3 & H4).
      repeat split; try assumption; intros H; [apply E1 | apply E2 | apply Hx']; auto.
Qed.

Lemma map_join (f : ascii -> ascii) (sep : str) (l : list str) :
  map f (join sep l) = join (map f sep) (map (map f) l).
Proof.
  induction l as [|x l IH]; [reflexivity|].
  destruct l as [|y l]; [reflexivity|].
  change (join sep (x :: y :: l)) with (x ++ sep ++ join sep (y :: l)).
  rewrite !map_app, IH. reflexivity.
Qed.

(** X8: for a Rust file under [./src] whose directories and stem
    have no dash and no dot, the guard name is [RUST_], the
    directories and the stem in upper case joined with underscores,
    and [_GEN_H]. *)
Theorem guard_of_plain (dirs : list str) (stem : str) :
  Forall plain (dirs ++ [stem]) ->
  exists out,
    make_output_filename ($"./src/" ++ join $"/" (dirs ++ [stem ++ $".rs"])) = Some out /\
    guard_name out = $"RUST_" ++ join $"_" (map str_upper (dirs ++ [stem])) ++ $"_GEN_H".
Proof.
  intros Hall. eexists. split; [apply output_of_plain, Hall|].
  set (l := dirs ++ [stem]) in *.
  assert (Hj : ~ In "/" (join $"-" l ++ $"-gen.h")).
  { intros H. apply in_app_or in H. destruct H as [H|H]; [|vm_compute in H; intuition discriminate].
    apply join_chars in H. destruct H as [H|(p & Hp & Hc)]; [vm_compute in H; intuition discriminate|].
    rewrite Forall_forall in Hall. apply (plain_chars _ _ (Hall _ Hp)) in Hc. tauto. }
  unfold guard_name, basename.
  change ($"./gen/c-headers/rust-" ++ join $"-" l ++ $"-gen.h")
    with ($"./gen/c-headers" ++ "/" :: $"rust-" ++ join $"-" l ++ $"-gen.h").
  rewrite rfind_last.
  2:{ intros H. apply in_app_or in H. destruct H as [H|H]; [vm_compute in H; intuition discriminate | tauto]. }
  rewrite skipn_app, skipn_all2 by (simpl; lia).
  replace (S (length $"./gen/c-headers") - length $"./gen/c-headers") with 1 by reflexivity.
  cbn [skipn app].
  unfold str_upper. change ($".") with (["."]). change ($"-") with (["-"]) at 1.
  change ($"_") with (["_"]) at 1 2. rewrite !replace_char, !map_map.
  rewrite !map_app, map_join. f_equal. f_equal.
  change (map _ $"-") with ($"_"). f_equal.
  apply map_ext_in. intros p Hp.
  apply map_ext_in. intros c Hc.
  rewrite Forall_forall in Hall. destruct (plain_chars _ _ (Hall _ Hp) Hc) as (_ & H1 & H2).
  apply Ascii.eqb_neq in H1, H2. rewrite H1, H2. reflexivity.
Qed.

Lemma guard_of_plain_witness :
  exists out,
    make_output_filename $"./src/dns/dns.rs" = Some out /\
    guard_name out = $"RUST_DNS_DNS_GEN_H".
Proof.
  apply (guard_of_plain [$"dns"] $"dns"). repeat constructor; try discriminate.
Defined.

Lemma guard_name_chars_witness :
  "R" <> "-" /\ "R" <> "." /\ "R" <> "/" /\ lower "R" = false.
Proof.
  apply (guard_name_chars $"./gen/c-headers/rust-dns-dns-gen.h" "R").
  vm_compute. tauto.
Defined.

(** ** gen_headers on a file *)

(** Every line of the writer ends with a line feed: the writer is
    empty only when no line was written. *)
Lemma format_line_not_nil (returns fnName args line : str) :
  format_line returns fnName args = Return line -> line <> [].
Proof.
  unfold format_line. destruct (forallb is_ascii _); [|discriminate].
  intros [= <-]. intros H. apply (f_equal (@length ascii)) in H.
  rewrite !length_app in H. simpl in H. lia.
Qed.

Lemma render_fn_not_nil (tm : list (str * str)) (fn : mtch) (line : str) :
  render_fn tm fn = Return line -> line <> [].
Proof.
  unfold render_fn.
  destruct (for_each (render_arg tm) (pieces (fn_args fn))) as [args|e]; cbn [bind]; [|discriminate].
  destruct (render_return tm (strip (fn_ret fn))) as [returns|e]; cbn [bind]; [|discriminate].
  apply format_line_not_nil.
Qed.

(** The writer holds text exactly when a declaration was found. *)
Lemma gen_headers_nil (tm : list (str * str)) (buf out : str) :
  gen_headers tm buf = Return out ->
  (out = [] <-> findall fn_flags re_fn buf = []).
Proof.
  intros H. apply gen_headers_lines in H. destruct H as (lines & HF & ->).
  destruct HF as [|fn line fns lines Hline _]; [tauto|].
  split; [|discriminate].
  intros H. cbn [concat] in H. apply app_eq_nil in H. destruct H as [H _].
  exfalso. eapply render_fn_not_nil; eassumption.
Qed.

Section ShellFacts.

Variable tm : list (str * str).
Variable world : Type.
Variable stamp : Type.
Variable newer : stamp -> stamp -> bool.
Variable path_exists : world -> str -> bool.
Variable st_mtime : world -> str -> option stamp.
Variable read : world -> str -> option str.
Variable print : world -> str -> world * bool.
Variable makedirs : world -> str -> world * bool.
Variable open_w : world -> str -> world * bool.
Variable write : world -> str -> str -> world * bool.

(** X9: [gen_headers] touches the file system or the standard
    output only after the output name was made, [should_regen]
    returned [True], the file was read, and the loop over the matches
    returned a text that is not empty, which needs a declaration in
    the file.  In every other case, the exceptions included, the
    world is left as it was. *)
Theorem gen_headers_file_frame (w : world) (filename : str) :
  fst (gen_headers_file tm world stamp newer path_exists st_mtime read
         print makedirs open_w write w filename) <> w ->
  exists output_filename buf prototypes,
    make_output_filename filename = Some output_filename /\
    should_regen world stamp newer path_exists st_mtime w filename output_filename = inr true /\
    read w filename = Some buf /\
    gen_headers tm buf = Return prototypes /\
    prototypes <> [] /\
    findall fn_flags re_fn buf <> [].
Proof.
  unfold gen_headers_file.
  destruct (make_output_filename filename) as [out|]; [|intros H; exfalso; apply H; reflexivity].
  destruct (should_regen _ _ _ _ _ w filename out) as [e|[|]] eqn:Er;
    try (intros H; exfalso; apply H; reflexivity).
  destruct (read w filename) as [buf|]; [|intros H; exfalso; apply H; reflexivity].
  destruct (gen_headers tm buf) as [prototypes|e] eqn:Eg;
    [|intros H; exfalso; apply H; reflexivity].
  unfold write_output. destruct prototypes as [|c prototypes].
  - intros H. exfalso. apply H. reflexivity.
  - intros _. exists out, buf, (c :: prototypes).
    repeat split; try reflexivity; try assumption; try discriminate.
    intros Hf. apply (gen_headers_nil _ _ _ Eg) in Hf. discriminate.
Qed.

End ShellFacts.

Lemma gen_headers_file_frame_witness :
  let print (w : list str) (s : str) := (s :: w, true) in
  let touch (w : list str) (p : str) := (p :: w, true) in
  let write (w : list str) (p s : str) := (s :: w, true) in
  let read (w : list str) (p : str) := Some (decl_head false $"rs_init" ++ $") {}") in
  exists output_filename buf prototypes,
    make_output_filename $"./src/core.rs" = Some output_filename /\
    should_regen (list str) nat (fun a b => Nat.ltb b a) (fun _ _ => false) (fun _ _ => Some 0)
      [] $"./src/core.rs" output_filename = inr true /\
    read [] $"./src/core.rs" = Some buf /\
    gen_headers type_map buf = Return prototypes /\
    prototypes <> [] /\
    findall fn_flags re_fn buf <> [].
Proof.
  cbv zeta.
  apply (gen_headers_file_frame type_map (list str) nat (fun a b => Nat.ltb b a) (fun _ _ => false)
           (fun _ _ => Some 0)
           (fun _ _ => Some (decl_head false $"rs_init" ++ $") {}"))
           (fun w s => (s :: w, true)) (fun w p => (p :: w, true))
           (fun w p => (p :: w, true)) (fun w p s => (s :: w, true))
           [] $"./src/core.rs").
  vm_compute. discriminate.
Defined.

(** ** More on the loop over the matches *)

(** X10: in a text in which no line starts with the letter of
    [pub], the pattern matches nowhere: nothing is extracted and the
    writer stays empty, whatever the table is. *)
Theorem quiet_text_no_prototypes (tm : list (str * str)) (buf : str) :
  quiet true buf = true ->
  findall fn_flags re_fn buf = [] /\
  extract buf = Return [] /\
  gen_headers tm buf = Return [].
Proof.
  intros Hq.
  assert (E : findall fn_flags re_fn buf = []).
  { unfold findall, finditer. rewrite <- (app_nil_r buf).
    rewrite scan_quiet by exact Hq. cbn [scan].
    rewrite exec_opens_body by exact I. reflexivity. }
  unfold extract, gen_headers. rewrite E. repeat split.
Qed.

Lemma quiet_text_no_prototypes_witness :
  let buf := $"// no exports here" ++ ["010"] ++ $"fn helper() {}" ++ ["010"] in
  findall fn_flags re_fn buf = [] /\
  extract buf = Return [] /\
  gen_headers type_map buf = Return [].
Proof.
  cbv zeta. apply quiet_text_no_prototypes. reflexivity.
Defined.

Lemma split_app (sep : ascii) (a b : str) :
  split sep (a ++ sep :: b) = split sep a ++ split sep b.
Proof.
  induction a as [|c a IH]; cbn [app split].
  - rewrite Ascii.eqb_refl. reflexivity.
  - destruct (Ascii.eqb c sep) eqn:E.
    + rewrite IH. reflexivity.
    + rewrite IH. destruct (split sep a) as [|p ps] eqn:Es;
        [exfalso; eapply split_not_nil; eassumption|].
      reflexivity.
Qed.

Lemma pieces_app (a b : str) : pieces (a ++ "," :: b) = pieces a ++ pieces b.
Proof. unfold pieces. rewrite split_app, filter_app. reflexivity. Qed.

(** The first colon cuts the piece: the type keeps its own colons. *)
Lemma split1_first (sep : ascii) (a b : str) :
  ~ In sep a -> split1 sep (a ++ sep :: b) = [a; b].
Proof.
  induction a as [|c a IH]; cbn [app split1]; intros H.
  - rewrite Ascii.eqb_refl. reflexivity.
  - destruct (Ascii.eqb c sep) eqn:E.
    + apply Ascii.eqb_eq in E. exfalso. apply H. left. exact E.
    + rewrite IH; [reflexivity|]. intros H'. apply H. right. exact H'.
Qed.

(** X11: a piece is cut at its first colon only: the name is what
    comes before it and the type all that comes after it, both
    stripped, so that a type keeps the colons of its path. *)
Theorem parse_arg_first_colon (arg_name rs_type : str) :
  ~ In ":" arg_name ->
  parse_arg (arg_name ++ ":" :: rs_type) = Return (strip arg_name, strip rs_type).
Proof.
  intros H. unfold parse_arg. rewrite split1_first by exact H. reflexivity.
Qed.

Lemma parse_arg_first_colon_witness :
  parse_arg $"buf: *const libc::c_char" = Return ($"buf", $"*const libc::c_char").
Proof.
  apply (parse_arg_first_colon $"buf" $" *const libc::c_char").
  vm_compute. intuition discriminate.
Defined.

Lemma for_each_parse_last (l : list str) (x : str) :
  parse_arg x = Raise ValueError -> for_each parse_arg (l ++ [x]) = Raise ValueError.
Proof.
  intros Hx. induction l as [|a l IH]; cbn [app for_each].
  - rewrite Hx. reflexivity.
  - destruct (parse_arg a) as [p|e] eqn:Ea; cbn [bind].
    + rewrite IH. reflexivity.
    + apply parse_arg_error in Ea. subst. reflexivity.
Qed.

(** X12: a comma at the very end of the argument text is harmless,
    the empty piece after it is skipped; white space after that comma
    is a piece of its own without colon, and the unpacking of its
    split raises [ValueError]: the match cannot be read and no line
    is written for it, whatever the table is. *)
Theorem trailing_comma (fn : mtch) (args ws : str) :
  fn_args fn = args ++ "," :: ws -> forallb isspace ws = true ->
  (ws = [] -> pieces (fn_args fn) = pieces args) /\
  (ws <> [] ->
   describe fn = Raise ValueError /\
   forall tm, exists e, render_fn tm fn = Raise e).
Proof.
  intros Hargs Hws. rewrite Hargs, pieces_app. split.
  - intros ->. apply app_nil_r.
  - intros Hne.
    assert (Hcomma : ~ In "," ws).
    { intros H. rewrite forallb_forall in Hws. apply Hws in H. discriminate. }
    assert (Hcolon : ~ In ":" ws).
    { intros H. rewrite forallb_forall in Hws. apply Hws in H. discriminate. }
    assert (Hp : pieces ws = [ws]).
    { unfold pieces. rewrite split_none by exact Hcomma. cbn [filter].
      apply str_eqb_neq in Hne. rewrite Hne. reflexivity. }
    assert (Hd : describe fn = Raise ValueError).
    { unfold describe. rewrite Hargs, pieces_app, Hp.
      rewrite for_each_parse_last by (apply parse_arg_no_colon, Hcolon). reflexivity. }
    split; [exact Hd|]. intros tm. eapply render_fn_unread. exact Hd.
Qed.

Lemma trailing_comma_witness :
  let fn := {| span := 0; captured := [(3, $"a: u8," ++ ["010"])] |} in
  (["010"] = [] -> pieces (fn_args fn) = pieces $"a: u8") /\
  (["010"] <> [] ->
   describe fn = Raise ValueError /\
   forall tm, exists e, render_fn tm fn = Raise e).
Proof.
  cbv zeta.
  apply (trailing_comma {| span := 0; captured := [(3, $"a: u8," ++ ["010"])] |}
           $"a: u8" ["010"]); reflexivity.
Defined.

(** ** More on convert_type *)

(** The end of the text is not reached before white space that
    something follows. *)
Lemma many_nonspace_eol_None (k : state -> option state) (g : list (nat * str)) :
  (forall st, at_eol no_flags st = false -> k st = None) ->
  forall s n b,
    (exists x ws y, s = x ++ ws :: y /\ isspace ws = true /\ y <> []) ->
    many (cset_has no_flags (NotSet [Space])) k n b g s = None.
Proof.
  intros Hk s n b HQ.
  apply many_None with
    (P := fun s => exists x ws y, s = x ++ ws :: y /\ isspace ws = true /\ y <> []).
  - intros c t (x & ws & y & E & Hws & Hy) Hc. rewrite has_nonspace in Hc.
    destruct x as [|d x]; cbn [app] in E.
    + injection E as -> _. unfold nonspace in Hc. rewrite Hws in Hc. discriminate.
    + injection E as _ ->. exists x, ws, y. repeat split; assumption.
  - intros n' b' t (x & ws & y & -> & Hws & Hy). apply Hk.
    unfold at_eol. cbn [ahead].
    destruct x as [|d [|e x]]; cbn [app].
    + destruct y; [congruence | reflexivity].
    + reflexivity.
    + reflexivity.
  - exact HQ.
Qed.

(** The second pattern does not match a text with a line feed that
    white space and more text follow. *)
Lemma re_modified_line_feed (m1 m2 : str) (w : ascii) (bb : str) :
  isspace w = true -> bb <> [] ->
  match_ no_flags re_modified (m1 ++ "010" :: m2 ++ w :: bb) = None.
Proof.
  intros Hw Hbb. unfold match_, exec, re_modified.
  cbn [run at_bol before taken groups ahead].
  rewrite many_None with
    (P := fun s => exists pre, s = pre ++ "010" :: m2 ++ w :: bb); [reflexivity | | |].
  - intros c t [pre E] Hc. destruct pre as [|d pre]; cbn [app] in E.
    + injection E as -> _. discriminate.
    + injection E as _ ->. exists pre. reflexivity.
  - intros n b t [pre ->]. cbn [run taken before ahead groups].
    assert (Hq : forall r, (exists x ws y, r = x ++ ws :: y /\ isspace ws = true /\ y <> []) ->
                 forall c s', r = c :: s' ->
                 cset_has no_flags (NotSet [Space]) c = true ->
                 exists x ws y, s' = x ++ ws :: y /\ isspace ws = true /\ y <> []).
    { intros r (x & ws & y & -> & Hws & Hy) c s' E Ec.
      destruct x as [|d x]; cbn [app] in E.
      - injection E as -> _. rewrite has_nonspace in Ec. unfold nonspace in Ec.
        rewrite Hws in Ec. discriminate.
      - injection E as _ <-. exists x, ws, y. repeat split; assumption. }
    assert (Heol : forall g' (k := fun st' : state =>
                      if at_eol no_flags
                           {| taken := taken st'; before := before st'; ahead := ahead st';
                              groups := g' st' |}
                      then Some {| taken := taken st'; before := before st';
                                   ahead := ahead st'; groups := g' st' |}
                      else None) st,
                 at_eol no_flags st = false -> k st = None).
    { intros g' k st Hst. unfold k, at_eol in *. cbn [ahead]. rewrite Hst. reflexivity. }
    destruct pre as [|d pre]; cbn [app].
    + rewrite has_space. change (isspace "010") with true. cbn iota.
      destruct (m2 ++ w :: bb) as [|c s'] eqn:E; [reflexivity|].
      destruct (cset_has no_flags (NotSet [Space]) c) eqn:Ec; [|reflexivity].
      apply many_nonspace_eol_None.
      * apply (Heol (fun st' => (2, firstn (taken st' - n) ("010" :: c :: s')) :: groups st')).
      * refine (Hq (m2 ++ w :: bb) _ c s' E Ec).
        exists m2, w, bb. repeat split; assumption.
    + rewrite has_space. destruct (isspace d); [|reflexivity].
      destruct (pre ++ "010" :: m2 ++ w :: bb) as [|c s'] eqn:E; [reflexivity|].
      destruct (cset_has no_flags (NotSet [Space]) c) eqn:Ec; [|reflexivity].
      apply many_nonspace_eol_None.
      * apply (Heol (fun st' => (2, firstn (taken st' - n) (d :: c :: s')) :: groups st')).
      * refine (Hq (pre ++ "010" :: m2 ++ w :: bb) _ c s' E Ec).
        exists pre, "010", (m2 ++ w :: bb). repeat split.
        intros H. apply app_eq_nil in H. destruct H as [_ H]. discriminate.
  - exists m1. reflexivity.
Qed.

(** X13: a type text with a line feed anywhere before white space
    that is followed by more text is not parsed, whatever its parts
    are: the dot of the second pattern does not pass a line feed. *)
Theorem convert_type_line_feed (tm : list (str * str)) (m : str) (w : ascii) (bb : str) :
  In "010" m -> isspace w = true -> bb <> [] ->
  convert_type tm (m ++ w :: bb) = Raise (UnrecognizedTypeExpression (m ++ w :: bb)).
Proof.
  intros Hm Hw Hbb. unfold convert_type.
  rewrite re_token_None by assumption.
  unfold convert_modified.
  apply in_split in Hm. destruct Hm as (m1 & m2 & ->).
  rewrite <- app_assoc. cbn [app].
  rewrite re_modified_line_feed by assumption. reflexivity.
Qed.

Lemma convert_type_line_feed_witness :
  let rs := $"*mut" ++ ["010"] ++ $"    Flow" in
  convert_type type_map rs = Raise (UnrecognizedTypeExpression rs).
Proof.
  cbv zeta.
  apply (convert_type_line_feed type_map ($"*mut" ++ ["010"] ++ $"   ") " " $"Flow").
  - vm_compute. tauto.
  - reflexivity.
  - discriminate.
Defined.

(** ** Declarations as they are written *)

Lemma closes_opens_body (tail : str) : opens_body tail -> closes tail = false.
Proof.
  induction tail as [|c tail IH]; [reflexivity|]. intros H. cbn [closes].
  destruct (Ascii.eqb c "{") eqn:E; [reflexivity|].
  apply Ascii.eqb_neq in E. apply opens_body_tail in H; [|exact E].
  destruct H as [Hc H]. destruct (Ascii.eqb c ")") eqn:E2.
  - apply Ascii.eqb_eq in E2. subst. discriminate.
  - apply IH, H.
Qed.

(** Wherever the argument group stops in a text without closing
    parenthesis before its brace, the parenthesis of the pattern is
    not found. *)
Lemma many_nonbrace_None (k : state -> option state) (g : list (nat * str)) :
  (forall st, match ahead st with ")" :: _ => False | _ => True end -> k st = None) ->
  forall s n b, closes s = false ->
    many (cset_has fn_flags (NotSet [Chr "{"])) k n b g s = None.
Proof.
  intros Hk s n b Hs. apply many_None with (P := fun s => closes s = false).
  - intros c t H Hc. rewrite has_nonbrace in Hc. cbn [closes] in H.
    apply negb_true_iff in Hc. rewrite Hc in H.
    destruct (Ascii.eqb c ")"); [discriminate | exact H].
  - intros n' b' t H. apply Hk. cbn [ahead]. destruct t as [|c t]; [exact I|].
    cbn [closes] in H. destruct (Ascii.eqb c "{") eqn:E1.
    + apply Ascii.eqb_eq in E1. subst. exact I.
    + destruct (Ascii.eqb c ")") eqn:E2; [discriminate|].
      apply Ascii.eqb_neq in E2.
      destruct c as [[] [] [] [] [] [] [] []]; try exact I. apply E2. reflexivity.
  - exact Hs.
Qed.

Lemma run_returns_Some (st : state) : exists r, run fn_flags re_returns Some st = Some r.
Proof.
  unfold re_returns. cbn [run].
  match goal with |- exists r, match ?M with _ => _ end = _ => destruct M end;
    eexists; reflexivity.
Qed.

(** The argument group takes the text up to the last closing
    parenthesis before the brace. *)
Lemma run_args_text (args tail : str) (n : nat) (b : option ascii) (g : list (nat * str)) :
  forallb nonbrace args = true -> closes tail = false ->
  run fn_flags (re_args >> Lit $")" >> re_returns) Some
    {| taken := n; before := b; ahead := args ++ ")" :: tail; groups := g |} =
  run fn_flags re_returns Some
    {| taken := n + length args + 1; before := Some ")"; ahead := tail;
       groups := match args with [] => [] | _ => [(3, args)] end ++ g |}.
Proof.
  intros Hargs Htail.
  assert (Hk : forall g' st,
             match ahead st with ")" :: _ => False | _ => True end ->
             match eat $")" (taken st) (before st) (ahead st) with
             | Some (n0, b0, s') =>
                 run fn_flags re_returns Some
                   {| taken := n0; before := b0; ahead := s'; groups := g' st |}
             | None => None
             end = None).
  { intros g' st Hst. rewrite eat_other; [reflexivity|]. simpl.
    destruct (ahead st) as [|d s]; [exact I|]. intros ->. apply Hst. }
  unfold re_args. cbn [run taken before ahead groups].
  destruct args as [|c args]; cbn [app length].
  - rewrite has_nonbrace. cbn [Ascii.eqb Bool.eqb negb andb].
    rewrite many_nonbrace_None; [| |exact Htail].
    + change (eat $")" n b (")" :: tail)) with (eat $")" n b ($")" ++ tail)).
      rewrite eat_app. cbn [length before_after fold_left list_ascii_of_string app].
      f_equal. f_equal. lia.
    + intros st Hst. exact (Hk (fun st' => _ :: groups st') st Hst).
  - cbn [forallb] in Hargs. apply andb_prop in Hargs. destruct Hargs as [Hc Hargs].
    rewrite has_nonbrace. fold (nonbrace c). rewrite Hc.
    destruct (run_returns_Some
                {| taken := S n + length args + 1; before := Some ")"; ahead := tail;
                   groups := (3, c :: args) :: g |}) as [r Hr].
    replace (n + S (length args) + 1) with (S n + length args + 1) by lia.
    transitivity (Some r); [|symmetry; exact Hr].
    erewrite many_app; [reflexivity | |].
    + erewrite forallb_ext_eq; [exact Hargs | intros; apply has_nonbrace].
    + rewrite many_here.
      * cbn [taken before ahead groups].
        change (")" :: tail) with ($")" ++ tail). rewrite eat_app.
        cbn [length list_ascii_of_string].
        rewrite <- Hr. f_equal. f_equal. f_equal. f_equal.
        replace (S n + length args - n) with (S (length args)) by lia.
        cbn [firstn]. f_equal. rewrite firstn_app, firstn_all, Nat.sub_diag.
        cbn [firstn]. rewrite app_nil_r. reflexivity.
      * right. apply many_nonbrace_None; [|exact Htail].
        intros st Hst. exact (Hk (fun st' => _ :: groups st') st Hst).
Qed.

Lemma firstn_prefix (a b x : str) (n : nat) :
  x = a ++ b -> n = length a -> firstn n x = a.
Proof.
  intros -> ->. rewrite firstn_app, firstn_all, Nat.sub_diag. cbn [firstn]. apply app_nil_r.
Qed.

(** The return group takes white space, the arrow and the text up to
    the brace. *)
Lemma run_returns_text (ws ret e : str) (n : nat) (b : option ascii) (g : list (nat * str)) :
  ws <> [] -> forallb isspace ws = true ->
  ret <> [] -> forallb nonbrace ret = true ->
  match e with [] => True | c :: _ => c = "{" end ->
  exists r,
    run fn_flags re_returns Some
      {| taken := n; before := b; ahead := ws ++ $"-> " ++ ret ++ e; groups := g |} = Some r /\
    taken r = n + length (ws ++ $"-> " ++ ret) /\
    before r = before_after b (ws ++ $"-> " ++ ret) /\
    ahead r = e /\
    groups r = (4, ws ++ $"-> " ++ ret) :: (5, ret) :: g.
Proof.
  intros Hws Hsp Hret Hnb He.
  destruct ws as [|w ws]; [congruence|]. destruct ret as [|t ret]; [congruence|].
  cbn [forallb] in Hsp, Hnb. apply andb_prop in Hsp, Hnb.
  destruct Hsp as [Hw Hsp]. destruct Hnb as [Ht Hnb].
  unfold re_returns. cbn [run taken before ahead groups app].
  rewrite has_space, Hw.
  eexists. split.
  - erewrite many_app; [reflexivity | |].
    + erewrite forallb_ext_eq; [exact Hsp | intros; apply has_space].
    + rewrite many_here by (left; reflexivity).
      cbn [taken before ahead groups]. rewrite eat_app.
      cbn [app]. rewrite has_nonbrace. fold (nonbrace t). rewrite Ht.
      apply many_app.
      * erewrite forallb_ext_eq; [exact Hnb | intros; apply has_nonbrace].
      * rewrite many_here.
        -- reflexivity.
        -- destruct e as [|c e]; [exact I|]. left. subst c. reflexivity.
  - cbn [taken before ahead groups]. repeat split.
    + cbn [length]. rewrite !length_app. cbn [length list_ascii_of_string]. lia.
    + unfold before_after. cbn [fold_left]. rewrite !fold_left_app. reflexivity.
    + f_equal.
      * f_equal. apply (firstn_prefix (w :: ws ++ $"-> " ++ t :: ret) e).
        -- cbn [app]. rewrite <- !app_assoc. reflexivity.
        -- cbn [length]. rewrite !length_app. cbn [length list_ascii_of_string]. lia.
      * f_equal. f_equal. apply (firstn_prefix (t :: ret) e); [reflexivity|].
        cbn [length]. lia.
Qed.

Lemma closes_app (t e : str) :
  forallb nonbrace t = true -> closes t = false -> closes (t ++ e) = closes e.
Proof.
  induction t as [|c t IH]; [reflexivity|]. cbn [forallb closes app]. unfold nonbrace at 1.
  intros H Hc. apply andb_prop in H. destruct H as [H1 H2].
  apply negb_true_iff in H1. rewrite H1 in *.
  destruct (Ascii.eqb c ")"); [discriminate|]. apply IH; assumption.
Qed.

Lemma closes_space (ws e : str) :
  forallb isspace ws = true -> closes (ws ++ e) = closes e.
Proof.
  induction ws as [|c ws IH]; [reflexivity|]. cbn [forallb closes app].
  intros H. apply andb_prop in H. destruct H as [H1 H2]. rewrite (IH H2).
  destruct c as [[] [] [] [] [] [] [] []]; try discriminate; reflexivity.
Qed.

(** A declaration up to its closing parenthesis: what is left to the
    return type. *)
Lemma run_decl (b : option ascii) (u : bool) (nm args tail : str) :
  b = None \/ b = Some "010" ->
  nm <> [] -> forallb name_char nm = true ->
  forallb nonbrace args = true -> closes tail = false ->
  run fn_flags re_fn Some
    {| taken := 0; before := b; ahead := decl_head u nm ++ args ++ ")" :: tail; groups := [] |} =
  run fn_flags re_returns Some
    {| taken := length (decl_head u nm) + length args + 1; before := Some ")"; ahead := tail;
       groups := match args with [] => [] | _ => [(3, args)] end ++
                 (2, nm) :: (if u then [(1, $"unsafe ")] else []) |}.
Proof.
  intros Hb Hne Hall Hargs Htail.
  destruct (run_returns_Some
              {| taken := length (decl_head u nm) + length args + 1; before := Some ")";
                 ahead := tail;
                 groups := match args with [] => [] | _ => [(3, args)] end ++
                           (2, nm) :: (if u then [(1, $"unsafe ")] else []) |}) as [r Hr].
  rewrite Hr.
  unfold re_fn, decl_head. rewrite <- !app_assoc.
  cbn [run taken before ahead groups].
  assert (Hbol : forall n s g,
             at_bol fn_flags {| taken := n; before := b; ahead := s; groups := g |} = true).
  { intros. unfold at_bol. cbn [before]. destruct Hb as [-> | ->]; reflexivity. }
  rewrite Hbol. rewrite eat_app.
  change ($"(" ++ args ++ ")" :: tail) with ("(" :: args ++ ")" :: tail).
  pose proof (run_args_text args tail) as H. cbn [run] in H.
  destruct u.
  - rewrite eat_app. cbn [taken before ahead groups]. rewrite eat_app.
    erewrite run_name; [reflexivity | assumption | assumption |].
    cbn [run taken before ahead groups].
    change ("(" :: args ++ ")" :: tail) with ($"(" ++ args ++ ")" :: tail) at 1.
    rewrite eat_app. rewrite H by assumption. rewrite <- Hr.
    f_equal. f_equal. unfold decl_head. rewrite !length_app. simpl. lia.
  - cbn [app]. rewrite eat_other by (simpl; discriminate).
    cbn [taken before ahead groups]. rewrite eat_app.
    erewrite run_name; [reflexivity | assumption | assumption |].
    cbn [run taken before ahead groups].
    change ("(" :: args ++ ")" :: tail) with ($"(" ++ args ++ ")" :: tail) at 1.
    rewrite eat_app. rewrite H by assumption. rewrite <- Hr.
    f_equal. f_equal. unfold decl_head. rewrite !length_app. simpl. lia.
Qed.

Lemma returns_ok_opens (ret : option (str * str)) (e : str) :
  returns_ok ret e -> opens_body e.
Proof.
  destruct ret as [[ws t]|]; [|exact (fun H => H)].
  intros (_ & _ & _ & _ & _ & He). destruct e as [|c e]; [exact I|]. subst c. reflexivity.
Qed.

Lemma exec_decl (b : option ascii) (u : bool) (nm args : str) (ret : option (str * str))
    (e : str) :
  b = None \/ b = Some "010" ->
  nm <> [] -> forallb name_char nm = true ->
  forallb nonbrace args = true -> returns_ok ret e ->
  exec fn_flags re_fn b (decl_text u nm args ret ++ e) =
  Some {| span := length (decl_text u nm args ret);
          captured := decl_groups u nm args ret |}.
Proof.
  intros Hb Hne Hall Hargs Hret. unfold exec, decl_text.
  rewrite <- !app_assoc. change ($")" ++ ?x) with (")" :: x).
  destruct ret as [[ws t]|].
  - destruct Hret as (Hws & Hsp & Ht & Hnb & Hcl & He).
    rewrite run_decl; try assumption.
    + rewrite <- !app_assoc.
      destruct (run_returns_text ws t e
                  (length (decl_head u nm) + length args + 1) (Some ")")
                  (match args with [] => [] | _ => [(3, args)] end ++
                   (2, nm) :: (if u then [(1, $"unsafe ")] else []))
                  Hws Hsp Ht Hnb He) as (r & Hr & Hn & _ & _ & Hg).
      rewrite Hr, Hn, Hg. unfold decl_groups. cbn [app].
      f_equal. f_equal. rewrite !length_app. cbn [length]. rewrite !length_app. lia.
    + rewrite <- !app_assoc. rewrite closes_space by assumption.
      change (closes ($"-> " ++ ?x)) with (closes x).
      rewrite closes_app by assumption.
      destruct e as [|c e]; [reflexivity|]. subst c. reflexivity.
  - rewrite app_nil_l. rewrite run_decl; try assumption.
    + rewrite run_returns_none by exact Hret. cbn [taken groups]. unfold decl_groups.
      cbn [app]. f_equal. f_equal. rewrite !length_app. cbn [length]. lia.
    + apply closes_opens_body, Hret.
Qed.

Lemma decl_text_not_nil (u : bool) (nm args : str) (ret : option (str * str)) :
  decl_text u nm args ret <> [].
Proof. unfold decl_text, decl_head. discriminate. Qed.

(** The scan of a text with a declaration at the start of a line:
    the match of the declaration, then the matches of the text after
    it. *)
Lemma findall_decl (pre : str) (u : bool) (nm args : str) (ret : option (str * str))
    (e : str) :
  quiet true pre = true -> ends_line pre ->
  nm <> [] -> forallb name_char nm = true ->
  forallb nonbrace args = true -> returns_ok ret e ->
  findall fn_flags re_fn (pre ++ decl_text u nm args ret ++ e) =
  {| span := length (decl_text u nm args ret); captured := decl_groups u nm args ret |}
  :: findall fn_flags re_fn e.
Proof.
  intros Hq Hpre Hne Hall Hargs Hret. unfold findall, finditer.
  rewrite scan_quiet by exact Hq.
  pose proof (exec_decl _ u nm args ret e (ends_line_before pre Hpre) Hne Hall Hargs Hret) as E.
  remember (before_after None pre) as b eqn:Eb. clear Eb.
  rewrite (scan_match _ _ _ _ _ _ _ (decl_text_not_nil u nm args ret) E) by reflexivity.
  cbn [map snd]. f_equal.
  apply scan_before; apply exec_opens_body; apply (returns_ok_opens ret), Hret.
Qed.

(** ** Writing a descriptor out and reading it back *)

Lemma trimmed_head (s : str) :
  trimmed s = true -> exists c s', s = c :: s' /\ isspace c = false.
Proof.
  unfold trimmed. destruct s as [|c s']; [discriminate|]. intros H.
  apply andb_prop in H. destruct H as [H _]. apply negb_true_iff in H.
  exists c, s'. split; [reflexivity | exact H].
Qed.

Lemma trimmed_last (s : str) :
  trimmed s = true -> exists c r, rev s = c :: r /\ isspace c = false.
Proof.
  unfold trimmed. intros H. apply andb_prop in H. destruct H as [_ H].
  destruct (rev s) as [|c r]; [discriminate|]. apply negb_true_iff in H.
  exists c, r. split; [reflexivity | exact H].
Qed.

Lemma lstrip_trimmed (s : str) : trimmed s = true -> lstrip s = s.
Proof.
  intros H. destruct (trimmed_head s H) as (c & s' & -> & Hc).
  apply drop_while_stop, Hc.
Qed.

Lemma rstrip_trimmed (s : str) : trimmed s = true -> rstrip s = s.
Proof.
  intros H. destruct (trimmed_last s H) as (c & r & E & Hc).
  unfold rstrip. rewrite E, drop_while_stop by exact Hc. rewrite <- E.
  apply rev_involutive.
Qed.

Lemma strip_trimmed (s : str) : trimmed s = true -> strip s = s.
Proof.
  intros H. unfold strip. rewrite lstrip_trimmed by exact H. apply rstrip_trimmed, H.
Qed.

Lemma strip_blank_trimmed (s : str) : trimmed s = true -> strip ($" " ++ s) = s.
Proof.
  intros H. unfold strip, lstrip. cbn [list_ascii_of_string app drop_while isspace].
  change (drop_while isspace (" " :: s)) with (lstrip s).
  rewrite lstrip_trimmed by exact H. apply rstrip_trimmed, H.
Qed.

Lemma strip_trimmed_blank (s : str) : trimmed s = true -> strip (s ++ $" ") = s.
Proof.
  intros H. unfold strip.
  destruct (trimmed_head s H) as (c & s' & E & Hc).
  assert (El : lstrip (s ++ $" ") = s ++ $" ").
  { rewrite E. apply drop_while_stop, Hc. }
  rewrite El. unfold rstrip. rewrite rev_app_distr.
  change (rev $" " ++ rev s) with (" " :: rev s).
  change (drop_while isspace (" " :: rev s)) with (drop_while isspace (rev s)).
  apply (rstrip_trimmed s H).
Qed.

Lemma trimmed_not_nil (s : str) : trimmed s = true -> s <> [].
Proof. destruct s; [discriminate | discriminate]. Qed.

Lemma pieces_one (x : str) : x <> [] -> ~ In "," x -> pieces x = [x].
Proof.
  intros Hne H. unfold pieces. rewrite split_none by exact H. cbn [filter].
  destruct x; [congruence | reflexivity].
Qed.

Lemma forallb_not_In (p : ascii -> bool) (c : ascii) (s : str) :
  forallb p s = true -> p c = false -> ~ In c s.
Proof.
  intros H Hc Hin. rewrite forallb_forall in H. rewrite (H c Hin) in Hc. discriminate.
Qed.

Lemma forallb_weaken (p q : ascii -> bool) (s : str) :
  (forall c, p c = true -> q c = true) -> forallb p s = true -> forallb q s = true.
Proof.
  intros Hpq H. rewrite forallb_forall in *. intros c Hc. apply Hpq, H, Hc.
Qed.

Section Param.

Variable p : str * str.
Hypothesis Hp : arg_name_ok (fst p) && type_ok (snd p) = true.

Lemma param_parts :
  trimmed (fst p) = true /\ trimmed (snd p) = true /\
  ~ In ":" (fst p) /\ ~ In "," (fst p) /\ ~ In "," (snd p) /\
  forallb nonbrace (fst p) = true /\ forallb nonbrace (snd p) = true.
Proof.
  apply andb_prop in Hp. destruct Hp as [Hn Ht].
  apply andb_prop in Hn, Ht. destruct Hn as [Hn1 Hn2]. destruct Ht as [Ht1 Ht2].
  repeat split; try assumption.
  - apply (forallb_not_In _ _ _ Hn2). reflexivity.
  - apply (forallb_not_In _ _ _ Hn2). reflexivity.
  - apply (forallb_not_In _ _ _ Ht2). reflexivity.
  - revert Hn2. apply forallb_weaken. intros c. unfold nonbrace.
    destruct (Ascii.eqb c "{"); [rewrite !orb_true_r; discriminate | reflexivity].
  - revert Ht2. apply forallb_weaken. intros c. unfold nonbrace.
    destruct (Ascii.eqb c "{"); [rewrite !orb_true_r; discriminate | reflexivity].
Qed.

Lemma print_param_nonbrace : forallb nonbrace (print_param p) = true.
Proof.
  destruct param_parts as (_ & _ & _ & _ & _ & H1 & H2).
  unfold print_param. rewrite !forallb_app, H1, H2. reflexivity.
Qed.

Lemma print_param_comma (w : str) : w = [] \/ w = $" " -> ~ In "," (w ++ print_param p).
Proof.
  destruct param_parts as (_ & _ & _ & H1 & H2 & _).
  intros Hw H. unfold print_param in H. rewrite !in_app_iff in H.
  destruct H as [H|[H|[H|H]]]; try tauto.
  - destruct Hw as [-> | ->]; [destruct H | destruct H as [H|[]]; discriminate].
  - destruct H as [H|[H|[]]]; discriminate.
Qed.

Lemma parse_print_param (w : str) :
  w = [] \/ w = $" " -> parse_arg (w ++ print_param p) = Return p.
Proof.
  destruct param_parts as (Hn & Ht & Hc & _).
  intros Hw. unfold print_param.
  change (w ++ fst p ++ $": " ++ snd p) with (w ++ fst p ++ ":" :: $" " ++ snd p).
  rewrite app_assoc. unfold parse_arg. rewrite split1_first.
  - rewrite (strip_blank_trimmed _ Ht).
    destruct Hw as [-> | ->].
    + rewrite app_nil_l, (strip_trimmed _ Hn). destruct p; reflexivity.
    + rewrite (strip_blank_trimmed _ Hn). destruct p; reflexivity.
  - rewrite in_app_iff. intros [H|H]; [|tauto].
    destruct Hw as [-> | ->]; [destruct H | destruct H as [H|[]]; discriminate].
Qed.

End Param.

(** The pieces of a written parameter list are read back as the
    parameters. *)
Lemma parse_print_params (ps : list (str * str)) :
  forallb (fun p => arg_name_ok (fst p) && type_ok (snd p)) ps = true ->
  forall w, w = [] \/ w = $" " -> ps <> [] ->
  for_each parse_arg (pieces (w ++ join $", " (map print_param ps))) = Return ps.
Proof.
  induction ps as [|p ps IH]; intros Hall w Hw Hne; [congruence|].
  cbn [forallb] in Hall. apply andb_prop in Hall. destruct Hall as [Hp Hps].
  destruct ps as [|q ps].
  - cbn [map join]. rewrite pieces_one.
    + cbn [for_each]. rewrite parse_print_param by assumption. reflexivity.
    + unfold print_param. destruct w, (fst p); discriminate.
    + apply print_param_comma; assumption.
  - change (join $", " (map print_param (p :: q :: ps)))
      with (print_param p ++ "," :: $" " ++ join $", " (map print_param (q :: ps))).
    rewrite app_assoc, pieces_app, pieces_one.
    + cbn [app for_each]. rewrite parse_print_param by assumption. cbn [bind].
      rewrite IH; [reflexivity | exact Hps | right; reflexivity | discriminate].
    + unfold print_param. destruct w, (fst p); discriminate.
    + apply print_param_comma; assumption.
Qed.

Lemma print_params_nonbrace (ps : list (str * str)) :
  forallb (fun p => arg_name_ok (fst p) && type_ok (snd p)) ps = true ->
  forallb nonbrace (join $", " (map print_param ps)) = true.
Proof.
  induction ps as [|p ps IH]; [reflexivity|]. intros Hall.
  cbn [forallb] in Hall. apply andb_prop in Hall. destruct Hall as [Hp Hps].
  destruct ps as [|q ps]; [apply print_param_nonbrace, Hp|].
  change (join $", " (map print_param (p :: q :: ps)))
    with (print_param p ++ $", " ++ join $", " (map print_param (q :: ps))).
  rewrite !forallb_app, (print_param_nonbrace p Hp), (IH Hps). reflexivity.
Qed.

(** The groups of a declaration, as the loop reads them. *)
Lemma decl_groups_read (n : nat) (u : bool) (nm args : str) (ret : option (str * str)) :
  let fn := {| span := n; captured := decl_groups u nm args ret |} in
  fn_name fn = nm /\ fn_args fn = args /\
  fn_ret fn = match ret with Some (_, t) => t | None => [] end.
Proof.
  unfold fn_name, fn_args, fn_ret, group, decl_groups. cbn [captured].
  destruct ret as [[ws t]|], args as [|a args], u; repeat split; reflexivity.
Qed.

Lemma well_formed_parts (d : FunctionDescriptor) :
  well_formed d = true ->
  name d <> [] /\ forallb name_char (name d) = true /\
  forallb (fun p => arg_name_ok (fst p) && type_ok (snd p)) (parameters d) = true /\
  match return_type d with Some t => return_ok t = true | None => True end.
Proof.
  unfold well_formed. intros H.
  apply andb_prop in H. destruct H as [H H4].
  apply andb_prop in H. destruct H as [H H3].
  apply andb_prop in H. destruct H as [H1 H2].
  repeat split; try assumption.
  - apply negb_true_iff, str_eqb_neq in H1. exact H1.
  - destruct (return_type d); [exact H4 | exact I].
Qed.

(** Reading the match of a written declaration gives the descriptor
    back. *)
Lemma describe_print (n : nat) (u : bool) (d : FunctionDescriptor) :
  well_formed d = true ->
  describe {| span := n;
              captured := decl_groups u (name d) (join $", " (map print_param (parameters d)))
                            (written_return d) |} = Return d.
Proof.
  intros H. destruct (well_formed_parts d H) as (_ & _ & Hps & Hret).
  destruct (decl_groups_read n u (name d) (join $", " (map print_param (parameters d)))
              (written_return d)) as (E2 & E3 & E5).
  unfold describe. rewrite E2, E3, E5. clear E2 E3 E5.
  assert (Ep : for_each parse_arg (pieces (join $", " (map print_param (parameters d)))) =
               Return (parameters d)).
  { destruct (parameters d) as [|p ps] eqn:E; [reflexivity|].
    apply (parse_print_params (p :: ps) Hps []); [left; reflexivity | discriminate]. }
  rewrite Ep. cbn [bind]. unfold written_return.
  destruct d as [nm ps [t|]]; cbn [return_type name parameters] in *.
  - apply andb_prop in Hret. destruct Hret as [Ht _].
    rewrite (strip_trimmed_blank t Ht).
    destruct t; [discriminate | reflexivity].
  - reflexivity.
Qed.

Lemma return_ok_parts (t : str) :
  return_ok t = true ->
  trimmed t = true /\ forallb nonbrace (t ++ $" ") = true /\ closes (t ++ $" ") = false.
Proof.
  unfold return_ok. intros H. apply andb_prop in H. destruct H as [Ht H].
  split; [exact Ht|]. clear Ht.
  induction t as [|c t IH]; [split; reflexivity|].
  cbn [forallb] in H. apply andb_prop in H. destruct H as [Hc H].
  destruct (IH H) as [IH1 IH2]. cbn [app forallb closes]. rewrite IH1, IH2.
  unfold nonbrace. apply negb_true_iff, orb_false_elim in Hc. destruct Hc as [Hc1 Hc2].
  rewrite Hc1, Hc2. split; reflexivity.
Qed.

Lemma body_opens (e : str) : body e -> opens_body e /\ opens_body ($" " ++ e).
Proof.
  destruct e as [|c e]; [split; exact I|]. intros ->. split; reflexivity.
Qed.

(** The written declaration in the parts the pattern takes. *)
Lemma print_decl_text (u : bool) (d : FunctionDescriptor) (e : str) :
  print_decl u d ++ $" " ++ e =
  decl_text u (name d) (join $", " (map print_param (parameters d))) (written_return d) ++
  match return_type d with Some _ => e | None => $" " ++ e end.
Proof.
  unfold print_decl, decl_text, written_return.
  destruct (return_type d) as [t|]; rewrite <- !app_assoc; reflexivity.
Qed.

Lemma findall_blank (e : str) :
  body e -> findall fn_flags re_fn ($" " ++ e) = findall fn_flags re_fn e.
Proof.
  intros He. destruct (body_opens e He) as [H1 H2].
  unfold findall, finditer. change ($" " ++ e) with (" " :: e) in *. cbn [scan].
  rewrite (exec_opens_body None _ H2).
  apply scan_before; apply exec_opens_body, H1.
Qed.

Lemma findall_print (pre : str) (u : bool) (d : FunctionDescriptor) (e : str) :
  quiet true pre = true -> ends_line pre -> well_formed d = true -> body e ->
  exists n,
    findall fn_flags re_fn (pre ++ print_decl u d ++ $" " ++ e) =
    {| span := n;
       captured := decl_groups u (name d) (join $", " (map print_param (parameters d)))
                     (written_return d) |}
    :: findall fn_flags re_fn e.
Proof.
  intros Hq Hpre Hd He. destruct (well_formed_parts d Hd) as (Hne & Hnm & Hps & Hret).
  rewrite print_decl_text. eexists.
  rewrite findall_decl; try assumption.
  - f_equal. destruct (return_type d); [reflexivity | apply findall_blank, He].
  - apply print_params_nonbrace, Hps.
  - unfold written_return, returns_ok. destruct (return_type d) as [t|].
    + destruct (return_ok_parts t Hret) as (Ht & Hnb & Hcl).
      repeat split; try assumption; try discriminate; try reflexivity.
      apply trimmed_not_nil in Ht. destruct t; [congruence | discriminate].
    + apply (body_opens e He).
Qed.

(** X14: a descriptor written out as a declaration at the start of
    a line, after text in which no line starts with the letter of
    [pub], is read back as it was: its name, its parameters in their
    order, each with its name and its type, and its return type or
    none; the descriptors of the text after the declaration follow.
    The comma and the blank between two parameters, the blank after
    a colon and the blank before the body are all stripped. *)
Theorem extract_print (pre : str) (u : bool) (d : FunctionDescriptor) (e : str) :
  quiet true pre = true -> ends_line pre -> well_formed d = true -> body e ->
  extract (pre ++ print_decl u d ++ $" " ++ e) = (ds <- extract e ;; Return (d :: ds)).
Proof.
  intros Hq Hpre Hd He. unfold extract.
  destruct (findall_print pre u d e Hq Hpre Hd He) as [n ->].
  cbn [for_each]. rewrite describe_print by exact Hd. reflexivity.
Qed.

(** X15: the output for a text with a written declaration, after
    text in which no line starts with the letter of [pub], is the
    line of its descriptor followed by the output for the text after
    it; an exception of that line, or else of the text after it, is
    the exception of the whole, in that order. *)
Theorem gen_headers_print (tm : list (str * str)) (pre : str) (u : bool)
    (d : FunctionDescriptor) (e : str) :
  quiet true pre = true -> ends_line pre -> well_formed d = true -> body e ->
  gen_headers tm (pre ++ print_decl u d ++ $" " ++ e) =
  (line <- render_descriptor tm d ;;
   rest <- gen_headers tm e ;;
   Return (line ++ rest)).
Proof.
  intros Hq Hpre Hd He. unfold gen_headers.
  destruct (findall_print pre u d e Hq Hpre Hd He) as [n ->].
  cbn [for_each]. rewrite (render_fn_describe tm _ d (describe_print n u d Hd)).
  destruct (render_descriptor tm d); cbn [bind]; [|reflexivity].
  destruct (for_each (render_fn tm) (findall fn_flags re_fn e)); reflexivity.
Qed.

(** ** What a conversion that returns has read *)

(** A repetition that succeeds has stopped somewhere: after a run of
    characters of the set, the rest of the pattern succeeds. *)
Lemma many_inv (p : ascii -> bool) (k : state -> option state) (g : list (nat * str)) :
  forall s n b r,
    many p k n b g s = Some r ->
    exists pre rest,
      s = pre ++ rest /\ forallb p pre = true /\
      k {| taken := n + length pre; before := before_after b pre; ahead := rest;
           groups := g |} = Some r.
Proof.
  induction s as [|c s IH]; intros n b r H; cbn [many] in H.
  - exists [], []. cbn [length]. rewrite Nat.add_0_r. repeat split. exact H.
  - destruct (p c) eqn:Ec.
    + destruct (many p k (S n) (Some c) g s) as [r'|] eqn:E.
      * injection H as ->. destruct (IH _ _ _ E) as (pre & rest & -> & Hall & Hk).
        exists (c :: pre), rest. cbn [forallb length]. rewrite Ec, Hall.
        repeat split. rewrite Nat.add_succ_r. exact Hk.
      * exists [], (c :: s). cbn [length]. rewrite Nat.add_0_r. repeat split. exact H.
    + exists [], (c :: s). cbn [length]. rewrite Nat.add_0_r. repeat split. exact H.
Qed.

(** A match of the second pattern: a prefix, one white space
    character, a token, and nothing more than a line feed at the end. *)
Lemma re_modified_inv (rs : str) (mt : mtch) :
  match_ no_flags re_modified rs = Some mt ->
  exists m w k nl,
    rs = m ++ w :: k ++ nl /\ isspace w = true /\ token k /\
    (nl = [] \/ nl = ["010"]) /\
    group mt 1 = m /\ group mt 2 = w :: k.
Proof.
  unfold match_, exec, re_modified. cbn [run at_bol before taken groups ahead].
  destruct (many _ _ _ _ _ _) as [r|] eqn:E; [|discriminate].
  intros [= <-]. apply many_inv in E.
  destruct E as (m & rest & -> & _ & Hk). cbn [run taken before ahead groups] in Hk.
  destruct rest as [|w rest]; [discriminate|].
  rewrite has_space in Hk. destruct (isspace w) eqn:Hw; [|discriminate].
  destruct rest as [|c rest]; [discriminate|].
  rewrite has_nonspace in Hk. destruct (nonspace c) eqn:Hc; [|discriminate].
  apply many_inv in Hk. destruct Hk as (k & nl & -> & Hall & Hk).
  cbn [run at_eol ahead taken before groups] in Hk.
  exists m, w, (c :: k), nl.
  assert (Hnl : (nl = [] \/ nl = ["010"]) /\
                r = {| taken := S (S (0 + length m)) + length k;
                       before := before_after (Some c) k; ahead := nl;
                       groups := [(2, firstn (S (S (0 + length m)) + length k - (0 + length m))
                                         (w :: c :: k ++ nl));
                                  (1, firstn (0 + length m - 0) (m ++ w :: c :: k ++ nl))] |}).
  { destruct nl as [|d [|d' nl]]; cbn [at_eol ahead] in Hk.
    - injection Hk as <-. split; [left|]; reflexivity.
    - destruct (Ascii.eqb d "010") eqn:Ed; [|discriminate].
      apply Ascii.eqb_eq in Ed. subst d. injection Hk as <-. split; [right|]; reflexivity.
    - cbn [MULTILINE no_flags andb] in Hk. discriminate. }
  destruct Hnl as [Hnl ->]. repeat split; try assumption.
  - discriminate.
  - cbn [forallb]. rewrite Hc. erewrite forallb_ext_eq; [exact Hall|].
    intros; symmetry; apply has_nonspace.
  - unfold group. cbn [captured groups group_of Nat.eqb].
    apply (firstn_prefix m (w :: c :: k ++ nl)); [reflexivity | lia].
  - unfold group. cbn [captured groups group_of Nat.eqb].
    apply (firstn_prefix (w :: c :: k) nl); [reflexivity | cbn [length]; lia].
Qed.

(** X16: a conversion that returns has found its text in the table, or
    has read it as a prefix, one white space character and a key of
    the table, with nothing more than a line feed after the key; the
    prefix, stripped, is one of the spellings, and the C type is the
    value of the key with the decoration of that spelling. *)
Theorem convert_type_Return (tm : list (str * str)) (rs c : str) :
  convert_type tm rs = Return c ->
  get tm rs = Some c \/
  exists m w k nl v,
    rs = m ++ w :: k ++ nl /\ isspace w = true /\ token k /\
    (nl = [] \/ nl = ["010"]) /\ get tm k = Some v /\
    (mem (strip m) mut_spellings = true /\ c = v ++ $" *" \/
     mem (strip m) const_spellings = true /\ c = $"const " ++ v ++ $" *" \/
     mem (strip m) mut_const_spellings = true /\ c = v ++ $" **").
Proof.
  intros H.
  assert (Hm : get tm rs = Some c \/ convert_modified tm rs = Return c).
  { unfold convert_type in H. destruct (match_ no_flags re_token rs); [|right; exact H].
    destruct (get tm rs) as [c'|]; [left | right; exact H]. congruence. }
  destruct Hm as [Hm|Hm]; [left; exact Hm | right]. clear H.
  unfold convert_modified in Hm.
  destruct (match_ no_flags re_modified rs) as [mt|] eqn:E; [|discriminate].
  destruct (re_modified_inv rs mt E) as (m & w & k & nl & -> & Hw & Hk & Hnl & E1 & E2).
  rewrite E1, E2, (strip_space_token w k Hw Hk) in Hm.
  destruct (get tm k) as [v|] eqn:Ev; [|discriminate].
  exists m, w, k, nl, v.
  split; [reflexivity|]. split; [exact Hw|]. split; [exact Hk|]. split; [exact Hnl|].
  split; [exact Ev|].
  destruct (mem (strip m) mut_spellings); [left; split; congruence|].
  destruct (mem (strip m) const_spellings); [right; left; split; congruence|].
  destruct (mem (strip m) mut_const_spellings); [right; right; split; congruence|].
  discriminate.
Qed.

Lemma convert_type_Return_witness :
  get type_map ($"*mut u8" ++ ["010"]) = Some $"uint8_t *" \/
  exists m w k nl v,
    $"*mut u8" ++ ["010"] = m ++ w :: k ++ nl /\ isspace w = true /\ token k /\
    (nl = [] \/ nl = ["010"]) /\ get type_map k = Some v /\
    (mem (strip m) mut_spellings = true /\ $"uint8_t *" = v ++ $" *" \/
     mem (strip m) const_spellings = true /\ $"uint8_t *" = $"const " ++ v ++ $" *" \/
     mem (strip m) mut_const_spellings = true /\ $"uint8_t *" = v ++ $" **").
Proof.
  apply (convert_type_Return type_map ($"*mut u8" ++ ["010"]) $"uint8_t *").
  vm_compute. reflexivity.
Defined.

(** X17: a declaration at the start of a line, after text in which
    no line starts with the letter of [pub], with any argument text
    without brace and a return type or none, is found as one match:
    the name is the second group, the argument text, up to the last
    closing parenthesis before the brace, the third, and the return
    type, with the white space up to the brace, the fifth; the scan
    goes on after it. *)
Theorem declaration_match (pre : str) (is_unsafe : bool) (fnName args : str)
    (ret : option (str * str)) (e : str) :
  quiet true pre = true -> ends_line pre ->
  fnName <> [] -> forallb name_char fnName = true ->
  forallb nonbrace args = true -> returns_ok ret e ->
  exists fn,
    findall fn_flags re_fn (pre ++ decl_text is_unsafe fnName args ret ++ e) =
    fn :: findall fn_flags re_fn e /\
    span fn = length (decl_text is_unsafe fnName args ret) /\
    fn_name fn = fnName /\ fn_args fn = args /\
    fn_ret fn = match ret with Some (_, t) => t | None => [] end.
Proof.
  intros Hq Hpre Hne Hall Hargs Hret.
  exists {| span := length (decl_text is_unsafe fnName args ret);
            captured := decl_groups is_unsafe fnName args ret |}.
  split; [apply findall_decl; assumption|]. split; [reflexivity|].
  apply decl_groups_read.
Qed.

Lemma declaration_match_witness :
  let pre := $"#[no_mangle]" ++ ["010"] in
  let args := $"cb: fn(u8)," ++ ["010"] ++ $"    x: u8" in
  let ret := Some ($" ", $"u8 ") in
  let e := $"{ }" in
  exists fn,
    findall fn_flags re_fn (pre ++ decl_text true $"rs_cb" args ret ++ e) =
    fn :: findall fn_flags re_fn e /\
    span fn = length (decl_text true $"rs_cb" args ret) /\
    fn_name fn = $"rs_cb" /\ fn_args fn = args /\ fn_ret fn = $"u8 ".
Proof.
  cbv zeta.
  apply (declaration_match ($"#[no_mangle]" ++ ["010"]) true $"rs_cb"
           ($"cb: fn(u8)," ++ ["010"] ++ $"    x: u8") (Some ($" ", $"u8 ")) $"{ }").
  - reflexivity.
  - right. exists $"#[no_mangle]". reflexivity.
  - discriminate.
  - reflexivity.
  - reflexivity.
  - cbv [returns_ok]. repeat split; try discriminate; reflexivity.
Defined.

Lemma extract_print_witness :
  let d := {| name := $"rs_sum";
              parameters := [($"a", $"u8"); ($"b", $"*const libc::c_char")];
              return_type := Some $"i32" |} in
  extract (print_decl false d ++ $" " ++ $"{ }") =
  (ds <- extract $"{ }" ;; Return (d :: ds)).
Proof.
  cbv zeta.
  apply (extract_print []
           false
           {| name := $"rs_sum";
              parameters := [($"a", $"u8"); ($"b", $"*const libc::c_char")];
              return_type := Some $"i32" |}
           $"{ }").
  - reflexivity.
  - left. reflexivity.
  - reflexivity.
  - reflexivity.
Defined.

Lemma gen_headers_print_witness :
  let d := {| name := $"rs_sum";
              parameters := [($"a", $"u8"); ($"b", $"*const libc::c_char")];
              return_type := Some $"i32" |} in
  gen_headers type_map (print_decl false d ++ $" " ++ $"{ }") =
  (line <- render_descriptor type_map d ;;
   rest <- gen_headers type_map $"{ }" ;;
   Return (line ++ rest)).
Proof.
  cbv zeta.
  apply (gen_headers_print type_map []
           false
           {| name := $"rs_sum";
              parameters := [($"a", $"u8"); ($"b", $"*const libc::c_char")];
              return_type := Some $"i32" |}
           $"{ }").
  - reflexivity.
  - left. reflexivity.
  - reflexivity.
  - reflexivity.
Defined.
